(** * Zoho CRM to Trello integration: a shallow embedding of the sync loop

    The development follows the JavaScript sources:
    - [services/zohoService.js]        (module [zohoService]),
    - [services/trelloService.js]      (module [trelloService]),
    - [services/integrationService.js] (module [integrationService]),
    - the express/cron entry point     (module [server]).

    JavaScript values are modelled by [jsval]; a string is its sequence of
    UTF-16 code units; an object is a finite map from property names to
    values.  Asynchronous methods run strictly sequentially (every call is
    awaited), so they are computations of the monad [M]: a state monad over
    the [World] (the two service objects, the remote systems and the trace of
    HTTP requests issued so far) with exceptions.  Calls to the logger only
    write to the console and to the log file, which no function reads back;
    what they write is left out, but their arguments are evaluated as the
    source evaluates them: the property reads and the conversions to strings
    inside their template literals can throw and are kept, in their order.
    The one line kept as text is the warning of [validateDeal], the logged
    reason of a failed validation. *)

From Stdlib Require Import Ascii String.
From stdpp Require Import gmap strings list pretty.

Set Warnings "-register-all".

(** ** Strings *)

(** A JavaScript string: its UTF-16 code units. *)
Definition jstring : Type := list N.

(** The code units of an ASCII literal of the source. *)
Definition u (s : string) : jstring :=
  (λ a, N_of_ascii a) <$> list_ascii_of_string s.
Global Arguments u : simpl never.

(** WhiteSpace and LineTerminator code points of ECMAScript: the characters
    [String.prototype.trim] removes. *)
Definition is_ws (c : N) : bool :=
  bool_decide (c ∈ [9; 10; 11; 12; 13; 32; 160; 5760; 8232; 8233; 8239; 8287;
                    12288; 65279]%N)
  || (8192 <=? c)%N && (c <=? 8202)%N.

Fixpoint dropWhile {A} (p : A → bool) (l : list A) : list A :=
  match l with
  | [] => []
  | x :: l' => if p x then dropWhile p l' else l
  end.

Definition trimStart (s : jstring) : jstring := dropWhile is_ws s.
Definition trimEnd (s : jstring) : jstring :=
  reverse (dropWhile is_ws (reverse s)).
(** [s.trim()] *)
Definition trim (s : jstring) : jstring := trimEnd (trimStart s).
Global Arguments trim : simpl never.

Fixpoint join (sep : jstring) (l : list jstring) : jstring :=
  match l with
  | [] => []
  | [s] => s
  | s :: l' => s ++ sep ++ join sep l'
  end.

(** [s] between two double quotes (code unit 34). *)
Definition quoted (s : jstring) : jstring := [34%N] ++ s ++ [34%N].

Definition hex_digit (n : N) : N :=
  if (n <? 10)%N then (48 + n)%N else (55 + n)%N.

(** Characters [encodeURIComponent] leaves alone: letters, digits and the
    marks hyphen, underscore, period, exclamation mark, tilde, asterisk,
    apostrophe and the two parentheses. *)
Definition uri_unreserved (c : N) : bool :=
  (65 <=? c)%N && (c <=? 90)%N || (97 <=? c)%N && (c <=? 122)%N
  || (48 <=? c)%N && (c <=? 57)%N
  || bool_decide (c ∈ [45; 95; 46; 33; 126; 42; 39; 40; 41]%N).

(** [encodeURIComponent] on strings of code units below 128, where the UTF-8
    encoding of a character is the character itself; the only argument the
    program passes is such a literal.  Other code units are kept. *)
Definition encodeURIComponent (s : jstring) : jstring :=
  s ≫= λ c,
    if uri_unreserved c then [c]
    else if (c <? 128)%N then [37%N; hex_digit (c / 16); hex_digit (c mod 16)]
    else [c].

(** The order of [<] and [<=] on strings: by code units. *)
Fixpoint str_lt (s t : jstring) : bool :=
  match s, t with
  | _, [] => false
  | [], _ :: _ => true
  | c :: s', d :: t' => (c <? d)%N || (c =? d)%N && str_lt s' t'
  end.

(** ** Numbers as text *)

(** The integers the program meets are numbers of JavaScript, that is
    doubles: [to_double z] is the double nearest to the integer [z > 0], ties
    going to the even mantissa, as [JSON.parse] and a number literal give
    it.  Up to 2^53 every integer is a double. *)
Definition to_double (z : Z) : Z :=
  let e := Z.log2 z in
  if (e <=? 52)%Z then z
  else
    let sh := (e - 52)%Z in
    let q := Z.shiftr z sh in
    let r := (z - Z.shiftl q sh)%Z in
    let half := Z.shiftl 1 (sh - 1) in
    let q' := if (half <? r)%Z || (r =? half)%Z && Z.odd q
              then (q + 1)%Z else q in
    Z.shiftl q' sh.

(** The decimal numeral [c] reads back as the double [x]: it lies within
    half the distance to the neighbouring doubles, the bound included when
    the mantissa of [x] is even.  Below a power of two the distance is half
    as wide. *)
Definition reads_back (x c : Z) : bool :=
  let e := Z.log2 x in
  let ulp := (2 ^ (e - 52))%Z in
  let m := (x / ulp)%Z in
  let up4 := (2 * ulp)%Z in
  let down4 := if (m =? 2 ^ 52)%Z then ulp else (2 * ulp)%Z in
  let d4 := (4 * (c - x))%Z in
  if (0 <=? d4)%Z then (d4 <? up4)%Z || Z.even m && (d4 =? up4)%Z
  else (- d4 <? down4)%Z || Z.even m && (- d4 =? down4)%Z.

(** The number of decimal digits of [x > 0]. *)
Definition decimal_digits (x : Z) : Z :=
  Z.of_nat (length (list_ascii_of_string (pretty x))).

(** Number::toString chooses the numeral with the fewest significant digits
    that reads back as [x], and among those the one nearest to [x] (the one
    with the even last digit when two are as near): [shortest_from k] tries
    [k], [k + 1], ... significant digits. *)
Fixpoint shortest_from (fuel : nat) (k : Z) (n x : Z) : Z :=
  match fuel with
  | O => x
  | S fuel' =>
      if (n <=? k)%Z then x
      else
        let p := (10 ^ (n - k))%Z in
        let down := (x / p * p)%Z in
        let up := (down + p)%Z in
        match reads_back x down, reads_back x up with
        | true, true =>
            if (x - down <? up - x)%Z then down
            else if (up - x <? x - down)%Z then up
            else if Z.even (x / p) then down else up
        | true, false => down
        | false, true => up
        | false, false => shortest_from fuel' (k + 1)%Z n x
        end
  end.

Definition shortest (x : Z) : Z :=
  if (Z.log2 x <=? 52)%Z then x
  else shortest_from 17 1 (decimal_digits x) x.

Fixpoint strip_zeros (rev_digits : list ascii) : list ascii :=
  match rev_digits with
  | "0"%char :: l => strip_zeros l
  | _ => rev_digits
  end.

(** The text of the numeral [v > 0]: in full up to 21 digits, and with an
    exponent from there on. *)
Definition numeral_text (v : Z) : string :=
  let all := list_ascii_of_string (pretty v) in
  let n := Z.of_nat (length all) in
  if (n <=? 21)%Z then pretty v
  else
    match reverse (strip_zeros (reverse all)) with
    | [] => pretty v
    | [d] => String d ("e+" ++ pretty (n - 1)%Z)
    | d :: ds =>
        String d ("." ++ string_of_list_ascii ds ++ "e+" ++ pretty (n - 1)%Z)
    end.

(** Number::toString on an integer. *)
Definition number_text (z : Z) : string :=
  let positive (z : Z) : string :=
    let x := to_double z in
    if (2 ^ 1024 <=? x)%Z then "Infinity" else numeral_text (shortest x) in
  if (z =? 0)%Z then "0"
  else if (z <? 0)%Z then "-" ++ positive (- z)%Z
  else positive z.
Global Arguments number_text : simpl never.

(** ** Values *)

(** Values as they come out of [JSON.parse] or are built by the program.
    Numbers are modelled by integers: the program's own numbers (list
    positions, the status 401) are integers and it does no arithmetic on the
    numbers it receives; [JNum z] is the number the numeral [z] denotes, see
    [to_double].  The program never builds a function or a symbol, and
    [JSON.parse] gives none. *)
Inductive jsval : Type :=
| JUndefined
| JNull
| JBool (b : bool)
| JNum (z : Z)
| JStr (s : jstring)
| JArr (l : list jsval)
| JObj (m : gmap jstring jsval).

(** An object literal [{k1: v1, ...}]. *)
Definition obj (l : list (string * jsval)) : jsval :=
  JObj (list_to_map (prod_map u id <$> l)).

(** ToBoolean: what [if (v)], [!v] and [v && ...] test. *)
Definition truthy (v : jsval) : bool :=
  match v with
  | JUndefined | JNull => false
  | JBool b => b
  | JNum z => negb (z =? 0)%Z
  | JStr s => negb (bool_decide (s = []))
  | JArr _ | JObj _ => true
  end.

(** [v === 'literal'] *)
Definition strict_eq_str (v : jsval) (s : jstring) : bool :=
  match v with
  | JStr s' => bool_decide (s' = s)
  | _ => false
  end.

(** [v === n] for a number literal *)
Definition strict_eq_num (v : jsval) (n : Z) : bool :=
  match v with
  | JNum z => bool_decide (z = n)
  | _ => false
  end.

(** ** Exceptions *)

(** What an axios error carries: [error.response] (absent when no response
    was received), of which the program reads [status] and [data], and
    [error.message]. *)
Record axios_error := {
  response : option (Z * jsval);
  ax_message : jstring
}.

Inductive exn : Type :=
| AxiosError (e : axios_error)
| TypeError (message : jstring)
| Error (message : jstring).

(** [error.message] *)
Definition message (e : exn) : jstring :=
  match e with
  | AxiosError e => ax_message e
  | TypeError m => m
  | Error m => m
  end.

(** [error.response?.status === n] *)
Definition response_status_is (e : exn) (n : Z) : bool :=
  match e with
  | AxiosError {| response := Some (st, _) |} => bool_decide (st = n)
  | _ => false
  end.

(** The outcome of an evaluation that may throw. *)
Inductive result (A : Type) : Type :=
| Ok (a : A)
| Throw (e : exn).
Arguments Ok {A} a.
Arguments Throw {A} e.

Definition bindR {A B} (r : result A) (k : A → result B) : result B :=
  match r with
  | Ok a => k a
  | Throw e => Throw e
  end.

Notation "x <~ r ;; k" := (bindR r (λ x, k))
  (at level 100, r at next level, right associativity,
   format "'[v' x  <~  r  ;;  '/' k ']'").

(** [l.map(f)] for an [f] that may throw: the elements in turn. *)
Definition mapR {A B} (f : A → result B) : list A → result (list B) :=
  fix go (l : list A) : result (list B) :=
    match l with
    | [] => Ok []
    | x :: l' =>
        y <~ f x;;
        r <~ go l';;
        Ok (y :: r)
    end.

(** ** Conversion to a string *)

Definition cannot_convert : exn :=
  TypeError (u "Cannot convert object to primitive value").

(** ToString, as a template literal [`${v}`] applies it.  An array is
    joined with commas, its elements converted in turn, [undefined] and
    [null] to nothing.  An object is converted through its method
    [toString]: that of [Object.prototype], which gives [[object Object]],
    unless the object has a property [toString] of its own; values have no
    functions, so such a property cannot be called, no more than [valueOf]
    gives a primitive, and the conversion throws. *)
Fixpoint tpl (v : jsval) : result jstring :=
  match v with
  | JUndefined => Ok (u "undefined")
  | JNull => Ok (u "null")
  | JBool true => Ok (u "true")
  | JBool false => Ok (u "false")
  | JNum z => Ok (u (number_text z))
  | JStr s => Ok s
  | JArr l =>
      parts <~ mapR (λ e, match e with
                          | JUndefined | JNull => Ok []
                          | _ => tpl e
                          end) l;;
      Ok (join (u ",") parts)
  | JObj m =>
      if bool_decide (is_Some (m !! u "toString")) then Throw cannot_convert
      else Ok (u "[object Object]")
  end.

(** The string a value converts to, when it does. *)
Definition text (v : jsval) : jstring :=
  match tpl v with
  | Ok s => s
  | Throw _ => []
  end.

(** ** Property access and method calls *)

Definition cannot_read (v : jsval) (k : jstring) : exn :=
  TypeError (u "Cannot read properties of " ++ text v ++ u " (reading '"
             ++ k ++ u "')").

Definition not_a_function (what : string) : exn :=
  TypeError (u what ++ u " is not a function").

(** The property [k] of an object with own properties [m]. *)
Definition field (m : gmap jstring jsval) (k : string) : jsval :=
  default JUndefined (m !! u k).
Global Arguments field : simpl never.

(** [v.k] for a property name [k] that is an identifier: reading a property
    of [undefined] or [null] throws; an object gives its own property;
    strings and arrays have [length]; every other read is [undefined]. *)
Definition getprop (v : jsval) (k : string) : result jsval :=
  match v with
  | JUndefined | JNull => Throw (cannot_read v (u k))
  | JObj m => Ok (field m k)
  | JStr s =>
      Ok (if bool_decide (k = "length") then JNum (Z.of_nat (length s)) else JUndefined)
  | JArr l =>
      Ok (if bool_decide (k = "length") then JNum (Z.of_nat (length l)) else JUndefined)
  | JBool _ | JNum _ => Ok JUndefined
  end.

(** [v[0]] *)
Definition getindex0 (v : jsval) : result jsval :=
  match v with
  | JUndefined | JNull => Throw (cannot_read v (u "0"))
  | JArr l => Ok (default JUndefined (head l))
  | JStr s => Ok (from_option (λ c, JStr [c]) JUndefined (head s))
  | JObj m => Ok (field m "0")
  | JBool _ | JNum _ => Ok JUndefined
  end.

(** [v.trim()]: only strings have the method. *)
Definition call_trim (v : jsval) (what : string) : result jstring :=
  match v with
  | JStr s => Ok (trim s)
  | JUndefined | JNull => Throw (cannot_read v (u "trim"))
  | _ => Throw (not_a_function what)
  end.

Fixpoint filterR {A} (p : A → result bool) (l : list A) : result (list A) :=
  match l with
  | [] => Ok []
  | x :: l' =>
      b <~ p x;;
      r <~ filterR p l';;
      Ok (if b then x :: r else r)
  end.

(** [v.filter(p)]: only arrays have the method. *)
Definition call_filter (v : jsval) (what : string) (p : jsval → result bool)
  : result (list jsval) :=
  match v with
  | JArr l => filterR p l
  | JUndefined | JNull => Throw (cannot_read v (u "filter"))
  | _ => Throw (not_a_function what)
  end.

(** [{...v}]: the own enumerable properties of [v]. *)
Definition spread (v : jsval) : gmap jstring jsval :=
  match v with
  | JObj m => m
  | JArr l => list_to_map (imap (λ i e, (u (pretty i), e)) l)
  | JStr s => list_to_map (imap (λ i c, (u (pretty i), JStr [c])) s)
  | _ => ∅
  end.

(** [v === undefined || v === null] *)
Definition nullish (v : jsval) : bool :=
  match v with
  | JUndefined | JNull => true
  | _ => false
  end.

(** [v?.k]: [undefined] when [v] is [undefined] or [null]. *)
Definition opt_prop (v : jsval) (k : string) : result jsval :=
  if nullish v then Ok JUndefined else getprop v k.

(** [v?.[0]] *)
Definition opt_index0 (v : jsval) : result jsval :=
  if nullish v then Ok JUndefined else getindex0 v.

(** [s.startsWith(t)] *)
Fixpoint starts_with (s t : jstring) : bool :=
  match t, s with
  | [], _ => true
  | c :: t', d :: s' => bool_decide (c = d) && starts_with s' t'
  | _ :: _, [] => false
  end.

(** [s.includes(t)] on strings: [t] occurs in [s]. *)
Fixpoint includes (s t : jstring) : bool :=
  starts_with s t
  || match s with
     | [] => false
     | _ :: s' => includes s' t
     end.

(** [v?.includes('literal')]: strings search for the text, arrays for an
    element that is the text; other values have no such method. *)
Definition opt_call_includes (v : jsval) (what : string) (t : jstring)
  : result jsval :=
  match v with
  | JUndefined | JNull => Ok JUndefined
  | JStr s => Ok (JBool (includes s t))
  | JArr l => Ok (JBool (existsb (λ e, strict_eq_str e t) l))
  | _ => Throw (not_a_function what)
  end.

(** ** The remote systems and the world *)

(** The request configuration handed to axios. *)
Record config := {
  method : jstring;
  url : jstring;
  headers : gmap jstring jstring;
  params : gmap jstring jsval;
  data : jsval                    (* [JUndefined] when the property is absent *)
}.

(** Everything outside the process (the CRM, its OAuth server, the board
    service): a state machine that answers each request with a response body
    ([response.data]) or makes axios reject with an error. *)
Inductive Remote : Type :=
  mkRemote (R : Type) (st : R)
           (step : config → R → (jsval + axios_error) * R).

Definition respond (rm : Remote) (c : config)
  : (jsval + axios_error) * Remote :=
  match rm with
  | mkRemote R st step =>
      let '(r, st') := step c st in (r, mkRemote R st' step)
  end.

(** A variable of the environment, [process.env.NAME]: a string, or
    [undefined] when the variable is not set. *)
Inductive env_var : Type :=
| Unset
| Set_to (s : jstring).

Definition of_env (x : env_var) : jsval :=
  match x with
  | Unset => JUndefined
  | Set_to s => JStr s
  end.
Coercion of_env : env_var >-> jsval.

(** [`${x}`] for a variable of the environment: the conversion cannot
    throw. *)
Definition env_text (x : env_var) : jstring :=
  match x with
  | Unset => u "undefined"
  | Set_to s => s
  end.

(** [class ZohoService]: the fields set by the constructor from the
    environment.  The two tokens are assigned again from what the OAuth
    server answers, which can be any value; the other fields never are.
    Both classes have a field [baseUrl]; the two are told apart by a
    prefix. *)
Record ZohoService := {
  clientId : env_var;
  clientSecret : env_var;
  redirectUri : env_var;
  zoho_baseUrl : env_var;
  accessToken : jsval;
  refreshToken : jsval
}.

(** [class TrelloService]: its fields are set by the constructor from the
    environment and never assigned again. *)
Record TrelloService := {
  apiKey : env_var;
  token : env_var;
  trello_baseUrl : env_var
}.

(** Which object issued a request.  The remote system does not see it. *)
Inductive client := ZohoApi | ZohoAccounts | TrelloApi.

Global Instance client_eq_dec : EqDecision client.
Proof. solve_decision. Defined.

(** The state the methods run in: the two service objects (the Zoho one is
    mutated by a token refresh), the remote systems, and the requests issued
    so far, oldest first. *)
Record World := {
  zoho : ZohoService;
  trello : TrelloService;
  remote : Remote;
  trace : list (client * config)
}.

(** ** The monad of asynchronous methods *)

Definition M (A : Type) : Type := World → result A * World.

Definition ret {A} (a : A) : M A := λ w, (Ok a, w).

Definition throw {A} (e : exn) : M A := λ w, (Throw e, w).

Definition bindM {A B} (m : M A) (k : A → M B) : M B :=
  λ w, match m w with
       | (Ok a, w') => k a w'
       | (Throw e, w') => (Throw e, w')
       end.

(** [try { body } catch (error) { handler }] *)
Definition try_catch {A} (body : M A) (handler : exn → M A) : M A :=
  λ w, match body w with
       | (Ok a, w') => (Ok a, w')
       | (Throw e, w') => handler e w'
       end.

(** A synchronous evaluation inside an asynchronous method. *)
Definition pure {A} (r : result A) : M A := λ w, (r, w).

Notation "x <- m ;; k" := (bindM m (λ x, k))
  (at level 100, m at next level, right associativity,
   format "'[v' x  <-  m  ;;  '/' k ']'").

(** [for (const x of xs) { acc = body x acc }], sequentially. *)
Fixpoint for_of {A B} (xs : list A) (body : A → B → M B) (acc : B) : M B :=
  match xs with
  | [] => ret acc
  | x :: xs' => acc' <- body x acc;; for_of xs' body acc'
  end.

(** How axios settles: it resolves with the response, of which the program
    reads [data] only, or rejects with the error. *)
Definition settle (r : jsval + axios_error) : result jsval :=
  match r with
  | inl response_data => Ok response_data
  | inr e => Throw (AxiosError e)
  end.

(** The world after [who] has issued the requests [cs] and the remote
    systems have moved to [rm]. *)
Definition issued (w : World) (who : client) (cs : list config) (rm : Remote)
  : World :=
  {| zoho := zoho w; trello := trello w; remote := rm;
     trace := trace w ++ ((λ c, (who, c)) <$> cs) |}.

(** [await axios(config)], giving [response.data]. *)
Definition axios (who : client) (c : config) : M jsval :=
  λ w,
    let '(r, rm) := respond (remote w) c in
    (settle r, issued w who [c] rm).

Definition get_zoho : M ZohoService := λ w, (Ok (zoho w), w).
Definition get_trello : M TrelloService := λ w, (Ok (trello w), w).

Definition with_accessToken (this : ZohoService) (v : jsval) : ZohoService :=
  {| clientId := clientId this;
     clientSecret := clientSecret this;
     redirectUri := redirectUri this;
     zoho_baseUrl := zoho_baseUrl this;
     accessToken := v;
     refreshToken := refreshToken this |}.

Definition with_zoho (w : World) (this : ZohoService) : World :=
  {| zoho := this; trello := trello w; remote := remote w;
     trace := trace w |}.

(** [this.accessToken = v] on the Zoho service object *)
Definition set_accessToken (v : jsval) : M unit :=
  λ w, (Ok tt, with_zoho w (with_accessToken (zoho w) v)).

Definition with_refreshToken (this : ZohoService) (v : jsval) : ZohoService :=
  {| clientId := clientId this;
     clientSecret := clientSecret this;
     redirectUri := redirectUri this;
     zoho_baseUrl := zoho_baseUrl this;
     accessToken := accessToken this;
     refreshToken := v |}.

(** [this.refreshToken = v] on the Zoho service object *)
Definition set_refreshToken (v : jsval) : M unit :=
  λ w, (Ok tt, with_zoho w (with_refreshToken (zoho w) v)).

(** The object both [checkConnection] methods return. *)
Module Connection.
Record t := { status : jstring; message : jstring }.
End Connection.

(** * services/zohoService.js *)

Module zohoService.

(** The request [refreshAccessToken] posts:
    [axios.post(url, null, { params })]. *)
Definition token_request (this : ZohoService) : config :=
  {| method := u "post";
     url := u "https://accounts.zoho.com/oauth/v2/token";
     headers := ∅;
     params :=
       list_to_map
         [(u "grant_type", JStr (u "refresh_token"));
          (u "client_id", of_env (clientId this));
          (u "client_secret", of_env (clientSecret this));
          (u "refresh_token", refreshToken this)];
     data := JNull |}.

(** [refreshAccessToken()] *)
Definition refreshAccessToken : M jsval :=
  try_catch
    (this <- get_zoho;;
     response_data <- axios ZohoAccounts (token_request this);;
     access_token <- pure (getprop response_data "access_token");;
     _ <- set_accessToken access_token;;
     this <- get_zoho;;
     ret (accessToken this))
    (λ error, throw (Error (u "Failed to refresh access token"))).

(** The [config] object [makeRequest] builds, [token] being the current
    token as a string. *)
Definition request_with (this : ZohoService)
    (endpoint method : jstring) (data : jsval) (token : jstring) : config :=
  {| method := method;
     url := env_text (zoho_baseUrl this) ++ endpoint;
     headers :=
       list_to_map
         [(u "Authorization", u "Zoho-oauthtoken " ++ token);
          (u "Content-Type", u "application/json")];
     params := ∅;
     data := if truthy data then data else JUndefined |}.

(** The statement [const config = {...}] of [makeRequest]: the header
    converts [this.accessToken] to a string, which throws for a token that
    does not convert. *)
Definition request_config (this : ZohoService)
    (endpoint method : jstring) (data : jsval) : result config :=
  token <~ tpl (accessToken this);;
  Ok (request_with this endpoint method data token).

(** [makeRequest(endpoint, method, data)] *)
Definition makeRequest (endpoint method : jstring) (data : jsval)
  : M jsval :=
  try_catch
    (this <- get_zoho;;
     config <- pure (request_config this endpoint method data);;
     axios ZohoApi config)
    (λ error,
       if response_status_is error 401 then
         _ <- refreshAccessToken;;
         this <- get_zoho;;
         config <- pure (request_config this endpoint method data);;
         axios ZohoApi config
       else throw error).

Definition criteria : jstring :=
  u "((Stage:equals:Project Kickoff)and(Type:equals:New Implementation Project))".

(** The predicate of the filter in [getEligibleDeals]:
    [!deal.Project_Board_ID__c || deal.Project_Board_ID__c === ''] *)
Definition board_id_empty (deal : jsval) : result bool :=
  b <~ getprop deal "Project_Board_ID__c";;
  if negb (truthy b) then Ok true
  else
    b' <~ getprop deal "Project_Board_ID__c";;
    Ok (strict_eq_str b' (u "")).

(** The argument of [makeRequest] in [getEligibleDeals]. *)
Definition search_endpoint : jstring :=
  u "/Deals/search" ++ u "?criteria=" ++ encodeURIComponent criteria.

(** [getEligibleDeals()] *)
Definition getEligibleDeals : M (list jsval) :=
  try_catch
    (response <- makeRequest search_endpoint (u "GET") JNull;;
     response_data <- pure (getprop response "data");;
     if negb (truthy response_data) then ret []
     else
       response_data <- pure (getprop response "data");;
       eligibleDeals <-
         pure (call_filter response_data "response.data.filter"
                 board_id_empty);;
       ret eligibleDeals)
    (λ error, throw error).

(** The test of the response in [updateDealWithBoardId]:
    [!response.data || !response.data[0] ||
     response.data[0].status !== 'success'] *)
Definition update_failed (response : jsval) : result bool :=
  d <~ getprop response "data";;
  if negb (truthy d) then Ok true
  else
    d <~ getprop response "data";;
    d0 <~ getindex0 d;;
    if negb (truthy d0) then Ok true
    else
      d <~ getprop response "data";;
      d0 <~ getindex0 d;;
      status <~ getprop d0 "status";;
      Ok (negb (strict_eq_str status (u "success"))).

Definition updateData (dealId boardId : jsval) : jsval :=
  obj [("data",
        JArr [obj [("id", dealId); ("Project_Board_ID_c", boardId)]])].

(** [updateDealWithBoardId(dealId, boardId)].  [JSON.stringify] of the
    record's answer, which goes to the log only, does not throw on a value of
    JSON. *)
Definition updateDealWithBoardId (dealId boardId : jsval) : M jsval :=
  try_catch
    (dealId_text <- pure (tpl dealId);;
     let endpoint := u "/Deals/" ++ dealId_text in
     response <- makeRequest endpoint (u "PUT") (updateData dealId boardId);;
     failed <- pure (update_failed response);;
     if failed then
       (* the log line converts [dealId] *)
       _ <- pure (tpl dealId);;
       dealId_text <- pure (tpl dealId);;
       throw (Error (u "Failed to update deal " ++ dealId_text
                     ++ u " in Zoho. See logs for details."))
     else
       (* the log line converts [dealId] and [boardId] *)
       _ <- pure (tpl dealId);;
       _ <- pure (tpl boardId);;
       ret response)
    (λ error,
       (* the log line converts [dealId] *)
       _ <- pure (tpl dealId);;
       throw error).

(** The object [exchangeCodeForTokens] returns. *)
Record Tokens := { access_token : jsval; refresh_token : jsval }.

(** The request [exchangeCodeForTokens] posts. *)
Definition code_request (this : ZohoService) (code : jsval) : config :=
  {| method := u "post";
     url := u "https://accounts.zoho.com/oauth/v2/token";
     headers := ∅;
     params :=
       list_to_map
         [(u "grant_type", JStr (u "authorization_code"));
          (u "client_id", of_env (clientId this));
          (u "client_secret", of_env (clientSecret this));
          (u "redirect_uri", of_env (redirectUri this));
          (u "code", code)];
     data := JNull |}.

(** [exchangeCodeForTokens(code)] *)
Definition exchangeCodeForTokens (code : jsval) : M Tokens :=
  try_catch
    (this <- get_zoho;;
     response_data <- axios ZohoAccounts (code_request this code);;
     (* const { access_token, refresh_token } = response.data *)
     access_token <- pure (getprop response_data "access_token");;
     refresh_token <- pure (getprop response_data "refresh_token");;
     _ <- set_accessToken access_token;;
     _ <- set_refreshToken refresh_token;;
     ret {| access_token := access_token; refresh_token := refresh_token |})
    (λ error, throw (Error (u "Failed to exchange authorization code"))).

(** [checkConnection()] *)
Definition checkConnection : M Connection.t :=
  try_catch
    (_ <- makeRequest (u "/org") (u "GET") JNull;;
     ret {| Connection.status := u "connected";
            Connection.message := u "Zoho CRM connection successful" |})
    (λ error,
       ret {| Connection.status := u "error";
              Connection.message := message error |}).

Definition fieldData : jsval :=
  obj [("fields",
        JArr [obj [("field_label", JStr (u "Project_Board_ID__c"));
                   ("api_name", JStr (u "Project_Board_ID_c"));
                   ("data_type", JStr (u "text"));
                   ("length", JNum 255)]])].

(** [error.response?.data] *)
Definition response_data_of (error : exn) : jsval :=
  match error with
  | AxiosError {| response := Some (_, d) |} => d
  | _ => JUndefined
  end.

(** The test in the handler of [createCustomField]:
    [error.response?.data?.details?.[0]?.message?.includes('already exists')] *)
Definition already_exists (error : exn) : result jsval :=
  details <~ opt_prop (response_data_of error) "details";;
  first <~ opt_index0 details;;
  msg <~ opt_prop first "message";;
  opt_call_includes msg
    "error.response?.data?.details?.[0]?.message?.includes"
    (u "already exists").

(** [createCustomField()] *)
Definition createCustomField : M jsval :=
  try_catch
    (response <- makeRequest (u "/settings/fields?module=Deals") (u "POST")
                   fieldData;;
     ret response)
    (λ error,
       found <- pure (already_exists error);;
       if truthy found then
         ret (obj [("message", JStr (u "Field already exists"))])
       else throw error).

End zohoService.

(** * services/trelloService.js *)

(** The object [createProjectBoard] returns. *)
Record Lists := { todo : jsval; inProgress : jsval; done : jsval }.
Record ProjectBoard := { board : jsval; lists : Lists; cards : list jsval }.

Module trelloService.

(** The [config] object [makeRequest] builds. *)
Definition request_config (this : TrelloService)
    (endpoint method : jstring) (data : jsval) : config :=
  let params0 : gmap jstring jsval :=
    list_to_map [(u "key", of_env (apiKey this));
                 (u "token", of_env (token this))] in
  let url := env_text (trello_baseUrl this) ++ endpoint in
  if truthy data then
    if bool_decide (method = u "GET") then
      {| method := method; url := url; headers := ∅;
         params := spread data ∪ params0; data := JUndefined |}
    else
      {| method := method; url := url; headers := ∅;
         params := params0; data := data |}
  else
    {| method := method; url := url; headers := ∅;
       params := params0; data := JUndefined |}.

(** [makeRequest(endpoint, method, data)] *)
Definition makeRequest (endpoint method : jstring) (data : jsval)
  : M jsval :=
  try_catch
    (this <- get_trello;;
     axios TrelloApi (request_config this endpoint method data))
    (λ error, throw error).

Definition boardData (name description : jstring) : jsval :=
  obj [("name", JStr name);
       ("desc", JStr description);
       ("defaultLists", JBool false);
       ("prefs_permissionLevel", JStr (u "private"))].

(** [createBoard(name, description)], on strings as [createProjectBoard]
    calls it. *)
Definition createBoard (name description : jstring) : M jsval :=
  try_catch
    (board <- makeRequest (u "/boards") (u "POST")
                (boardData name description);;
     (* the log line reads [board.id] and converts it *)
     board_id <- pure (getprop board "id");;
     _ <- pure (tpl board_id);;
     ret board)
    (λ error, throw error).

Definition listData (boardId : jsval) (listName : jstring)
    (position : jsval) : jsval :=
  obj [("name", JStr listName); ("idBoard", boardId); ("pos", position)].

(** [createList(boardId, listName, position)] *)
Definition createList (boardId : jsval) (listName : jstring)
    (position : jsval) : M jsval :=
  try_catch
    (list <- makeRequest (u "/lists") (u "POST")
               (listData boardId listName position);;
     (* the log line converts [boardId] *)
     _ <- pure (tpl boardId);;
     ret list)
    (λ error, throw error).

Definition cardData (listId : jsval) (cardName description : jstring)
  : jsval :=
  obj [("name", JStr cardName);
       ("desc", JStr description);
       ("idList", listId);
       ("pos", JStr (u "bottom"))].

(** [createCard(listId, cardName, description)] *)
Definition createCard (listId : jsval) (cardName description : jstring)
  : M jsval :=
  try_catch
    (card <- makeRequest (u "/cards") (u "POST")
               (cardData listId cardName description);;
     (* the log line converts [listId] *)
     _ <- pure (tpl listId);;
     ret card)
    (λ error, throw error).

(** [`Project: ${dealName}`] *)
Definition boardName (dealName : jsval) : result jstring :=
  name <~ tpl dealName;;
  Ok (u "Project: " ++ name).

(** [`Project board for deal: ${dealName} (Zoho Deal ID: ${dealId})`] *)
Definition boardDescription (dealName dealId : jsval) : result jstring :=
  name <~ tpl dealName;;
  id <~ tpl dealId;;
  Ok (u "Project board for deal: " ++ name ++ u " (Zoho Deal ID: "
      ++ id ++ u ")").

Definition initialCards : list jstring :=
  [u "Kickoff Meeting Scheduled"; u "Requirements Gathering";
   u "System Setup"].

(** [createProjectBoard(dealName, dealId)] *)
Definition createProjectBoard (dealName dealId : jsval) : M ProjectBoard :=
  try_catch
    (boardName <- pure (boardName dealName);;
     boardDescription <- pure (boardDescription dealName dealId);;
     board <- createBoard boardName boardDescription;;
     board_id <- pure (getprop board "id");;
     todoList <- createList board_id (u "To Do") (JNum 1);;
     board_id <- pure (getprop board "id");;
     inProgressList <- createList board_id (u "In Progress") (JNum 2);;
     board_id <- pure (getprop board "id");;
     doneList <- createList board_id (u "Done") (JNum 3);;
     createdCards <-
       for_of initialCards
         (λ cardName createdCards,
            todoList_id <- pure (getprop todoList "id");;
            card <- createCard todoList_id cardName (u "");;
            ret (createdCards ++ [card]))
         [];;
     (* the log line converts [dealName] *)
     _ <- pure (tpl dealName);;
     ret {| board := board;
            lists := {| todo := todoList;
                        inProgress := inProgressList;
                        done := doneList |};
            cards := createdCards |})
    (λ error,
       (* the log line converts [dealName] *)
       _ <- pure (tpl dealName);;
       throw error).

(** [getBoard(boardId)] *)
Definition getBoard (boardId : jsval) : M jsval :=
  try_catch
    (boardId_text <- pure (tpl boardId);;
     makeRequest (u "/boards/" ++ boardId_text) (u "GET") JNull)
    (λ error,
       (* the log line converts [boardId] *)
       _ <- pure (tpl boardId);;
       throw error).

(** [checkConnection()] *)
Definition checkConnection : M Connection.t :=
  try_catch
    (_ <- makeRequest (u "/members/me") (u "GET") JNull;;
     ret {| Connection.status := u "connected";
            Connection.message := u "Trello connection successful" |})
    (λ error,
       ret {| Connection.status := u "error";
              Connection.message := message error |}).

(** [getUserBoards()] *)
Definition getUserBoards : M jsval :=
  try_catch
    (makeRequest (u "/members/me/boards") (u "GET") JNull)
    (λ error, throw error).

End trelloService.

(** * services/integrationService.js *)

(** An entry of [results.details]. *)
Record Detail := {
  dealId : jsval;
  dealName : jsval;
  status : jstring;
  detail_message : jstring
}.

(** The object [syncDealsToTrello] returns. *)
Record SyncResult := {
  processed : nat;
  created : nat;
  errors : nat;
  details : list Detail
}.

(** The object [processDeal] returns. *)
Record ProcessedDeal := {
  pd_dealId : jsval;
  pd_dealName : jsval;
  boardId : jsval;
  boardUrl : jsval
}.

Module integrationService.

(** An entry of the [validations] array. *)
Record Validation := { condition : jsval; validation_message : jstring }.

(** The [validations] array literal: its three conditions are evaluated,
    in order, when the array is built. *)
Definition validations (deal : jsval) : result (list Validation) :=
  stage <~ getprop deal "Stage";;
  type <~ getprop deal "Type";;
  name <~ getprop deal "Deal_Name";;
  name_ok <~ (if truthy name then
                name <~ getprop deal "Deal_Name";;
                trimmed <~ call_trim name "deal.Deal_Name.trim";;
                Ok (JBool (negb (bool_decide (trimmed = u ""))))
              else Ok name);;
  Ok [ {| condition := JBool (strict_eq_str stage (u "Project Kickoff"));
          validation_message :=
            u "Deal stage must be " ++ quoted (u "Project Kickoff") |};
       {| condition :=
            JBool (strict_eq_str type (u "New Implementation Project"));
          validation_message :=
            u "Deal type must be "
            ++ quoted (u "New Implementation Project") |};
       {| condition := name_ok;
          validation_message := u "Deal must have a valid name" |} ].

(** What a call of [validateDeal] does: the lines it hands to
    [logger.warn], in order, and the value it returns. *)
Record Validated := { warnings : list jstring; valid : bool }.

(** The loop of [validateDeal]: the first entry whose condition is falsy
    makes the function warn, with [deal.id] converted to a string and the
    message of the entry, and return [false]. *)
Fixpoint validate_loop (deal : jsval) (vs : list Validation)
  : result Validated :=
  match vs with
  | [] => Ok {| warnings := []; valid := true |}
  | validation :: vs' =>
      if negb (truthy (condition validation)) then
        deal_id <~ getprop deal "id";;
        deal_id_text <~ tpl deal_id;;
        Ok {| warnings :=
                [u "Deal " ++ deal_id_text ++ u " validation failed: "
                 ++ validation_message validation];
              valid := false |}
      else validate_loop deal vs'
  end.

(** [validateDeal(deal)], with its warnings. *)
Definition validateDeal_logged (deal : jsval) : result Validated :=
  vs <~ validations deal;;
  validate_loop deal vs.

(** [validateDeal(deal)]: the value it returns. *)
Definition validateDeal (deal : jsval) : result bool :=
  r <~ validateDeal_logged deal;;
  Ok (valid r).

(** [processDeal(deal)] *)
Definition processDeal (deal : jsval) : M ProcessedDeal :=
  try_catch
    ((* the log line reads and converts [deal.Deal_Name], then [deal.id] *)
     deal_name <- pure (getprop deal "Deal_Name");;
     _ <- pure (tpl deal_name);;
     deal_id <- pure (getprop deal "id");;
     _ <- pure (tpl deal_id);;
     valid <- pure (validateDeal deal);;
     if negb valid then
       throw (Error (u "Deal does not meet all criteria"))
     else
       deal_name <- pure (getprop deal "Deal_Name");;
       deal_id <- pure (getprop deal "id");;
       projectBoard <- trelloService.createProjectBoard deal_name deal_id;;
       deal_id <- pure (getprop deal "id");;
       board_id <- pure (getprop (board projectBoard) "id");;
       _ <- zohoService.updateDealWithBoardId deal_id board_id;;
       (* the log line reads and converts [deal.id], then
          [projectBoard.board.id] *)
       deal_id <- pure (getprop deal "id");;
       _ <- pure (tpl deal_id);;
       board_id <- pure (getprop (board projectBoard) "id");;
       _ <- pure (tpl board_id);;
       deal_id <- pure (getprop deal "id");;
       deal_name <- pure (getprop deal "Deal_Name");;
       board_id <- pure (getprop (board projectBoard) "id");;
       board_url <- pure (getprop (board projectBoard) "url");;
       ret {| pd_dealId := deal_id; pd_dealName := deal_name;
              boardId := board_id; boardUrl := board_url |})
    (λ error,
       (* the log line reads and converts [deal.id] *)
       deal_id <- pure (getprop deal "id");;
       _ <- pure (tpl deal_id);;
       throw error).

(** The test at the head of the loop of [syncDealsToTrello]:
    [deal.Project_Board_ID_c && deal.Project_Board_ID_c.trim() !== ''] *)
Definition has_board_id (deal : jsval) : result bool :=
  b <~ getprop deal "Project_Board_ID_c";;
  if truthy b then
    b <~ getprop deal "Project_Board_ID_c";;
    trimmed <~ call_trim b "deal.Project_Board_ID_c.trim";;
    Ok (negb (bool_decide (trimmed = u "")))
  else Ok false.

Definition success_detail (deal_id deal_name : jsval) : Detail :=
  {| dealId := deal_id; dealName := deal_name; status := u "success";
     detail_message := u "Trello board created successfully" |}.

Definition error_detail (deal_id deal_name : jsval) (error : exn) : Detail :=
  {| dealId := deal_id; dealName := deal_name; status := u "error";
     detail_message := message error |}.

(** The body of the loop of [syncDealsToTrello].  The method it calls,
    [this.processDeal], is the argument [processDeal]. *)
Definition loop_body (processDeal : jsval → M ProcessedDeal)
    (deal : jsval) (results : SyncResult) : M SyncResult :=
  skip <- pure (has_board_id deal);;
  if skip then
    (* the log line reads and converts [deal.id], then [deal.Deal_Name];
       then [continue] *)
    deal_id <- pure (getprop deal "id");;
    _ <- pure (tpl deal_id);;
    deal_name <- pure (getprop deal "Deal_Name");;
    _ <- pure (tpl deal_name);;
    ret results
  else
    try_catch
      (_ <- processDeal deal;;
       deal_id <- pure (getprop deal "id");;
       deal_name <- pure (getprop deal "Deal_Name");;
       ret {| processed := processed results;
              created := S (created results);
              errors := errors results;
              details :=
                details results ++ [success_detail deal_id deal_name] |})
      (λ error,
         deal_id <- pure (getprop deal "id");;
         deal_name <- pure (getprop deal "Deal_Name");;
         (* the log line reads and converts [deal.id]; a throw here leaves
            the inner [try] and ends the loop *)
         logged_id <- pure (getprop deal "id");;
         _ <- pure (tpl logged_id);;
         ret {| processed := processed results;
                created := created results;
                errors := S (errors results);
                details :=
                  details results
                  ++ [error_detail deal_id deal_name error] |}).

(** The body of the loop, with the method [processDeal] of the class. *)
Definition sync_deal : jsval → SyncResult → M SyncResult :=
  loop_body processDeal.

(** [syncDealsToTrello()] *)
Definition syncDealsToTrello : M SyncResult :=
  try_catch
    (eligibleDeals <- zohoService.getEligibleDeals;;
     if bool_decide (length eligibleDeals = 0) then
       ret {| processed := 0; created := 0; errors := 0; details := [] |}
     else
       let results :=
         {| processed := length eligibleDeals; created := 0; errors := 0;
            details := [] |} in
       results <- for_of eligibleDeals sync_deal results;;
       ret results)
    (λ error, throw error).

(** [getProcessedDeals()]: so far an empty array. *)
Definition getProcessedDeals : M (list jsval) :=
  try_catch (ret []) (λ error, throw error).

(** The object [getSyncStats] returns. *)
Module SyncStats.
Record t := {
  eligible : nat;
  processed : nat;
  pending : nat;
  lastSync : jstring
}.
End SyncStats.

(** [getSyncStats()].  The reading of the clock,
    [new Date().toISOString()], is the argument [now]. *)
Definition getSyncStats (now : jstring) : M SyncStats.t :=
  try_catch
    (eligibleDeals <- zohoService.getEligibleDeals;;
     processedDeals <- getProcessedDeals;;
     ret {| SyncStats.eligible := length eligibleDeals;
            SyncStats.processed := length processedDeals;
            SyncStats.pending := length eligibleDeals;
            SyncStats.lastSync := now |})
    (λ error, throw error).

(** The object [validateServices] returns. *)
Module ServicesCheck.
Record t := {
  zoho : Connection.t;
  trello : Connection.t;
  overall : bool
}.
End ServicesCheck.

(** [validateServices()] *)
Definition validateServices : M ServicesCheck.t :=
  try_catch
    (zohoCheck <- zohoService.checkConnection;;
     trelloCheck <- trelloService.checkConnection;;
     ret {| ServicesCheck.zoho := zohoCheck;
            ServicesCheck.trello := trelloCheck;
            ServicesCheck.overall :=
              bool_decide (Connection.status zohoCheck = u "connected")
              && bool_decide (Connection.status trelloCheck = u "connected")
         |})
    (λ error, throw error).

(** [initializeZohoFields()] *)
Definition initializeZohoFields : M unit :=
  try_catch
    (_ <- zohoService.createCustomField;;
     ret tt)
    (λ error, throw error).

End integrationService.

(** * The entry point: the express routes and the cron schedule *)

Module server.

(** What a route handler sends through [res]. *)
Inductive Body :=
| SyncCompleted (result : SyncResult)  (* message: Sync completed, result *)
| SyncFailed.                          (* error: Sync failed *)

Record Reply := { code : Z; body : Body }.

(** The handler of the route [POST /sync] *)
Definition post_sync : M Reply :=
  try_catch
    (result <- integrationService.syncDealsToTrello;;
     ret {| code := 200; body := SyncCompleted result |})
    (λ error, ret {| code := 500; body := SyncFailed |}).

(** The callback given to [cron.schedule], run every ten seconds *)
Definition scheduled_sync : M unit :=
  try_catch
    (_ <- integrationService.syncDealsToTrello;;
     ret tt)
    (λ error, ret tt).

End server.

(** The other routes of the entry point. *)

Module routes.

(** What a handler sends: [res.status(code).json(body)], the status being
    200 when it is not set. *)
Record Reply := { status_code : Z; json : jsval }.

(** The handler of the route [GET /callback], from [req.query]. *)
Definition callback (query : gmap jstring jsval) : M Reply :=
  let code := field query "code" in
  if negb (truthy code) then
    ret {| status_code := 400;
           json := obj [("error",
                         JStr (u "Authorization code not provided"))] |}
  else
    try_catch
      (tokens <- zohoService.exchangeCodeForTokens code;;
       ret {| status_code := 200;
              json :=
                obj [("message",
                      JStr (u "Authorization successful! Update your .env file with the refresh token."));
                     ("refresh_token", zohoService.refresh_token tokens);
                     ("access_token", zohoService.access_token tokens)] |})
      (λ error,
         ret {| status_code := 500;
                json := obj [("error",
                              JStr (u "Failed to exchange authorization code"))]
             |}).

Definition connection_json (c : Connection.t) : jsval :=
  obj [("status", JStr (Connection.status c));
       ("message", JStr (Connection.message c))].

(** The handler of the route [GET /health].  The reading of the clock is
    the argument [now]. *)
Definition health (now : jstring) : M Reply :=
  try_catch
    (zohoHealth <- zohoService.checkConnection;;
     trelloHealth <- trelloService.checkConnection;;
     ret {| status_code := 200;
            json :=
              obj [("status", JStr (u "ok"));
                   ("services",
                    obj [("zoho", connection_json zohoHealth);
                         ("trello", connection_json trelloHealth)]);
                   ("timestamp", JStr now)] |})
    (λ error,
       ret {| status_code := 500;
              json := obj [("status", JStr (u "error"));
                           ("error", JStr (message error))] |}).

End routes.

(** * utils/logger.js *)

Module logger.

(** [this.logLevels]: its own properties. *)
Definition logLevels : list (string * Z) :=
  [("error", 0); ("warn", 1); ("info", 2); ("debug", 3)]%Z.

(** [this.logLevels] is a plain object, so a name that is not a level finds
    what [Object.prototype] has under that name: one of its methods, given
    here with the name of the function, or, under [__proto__], the
    prototype itself. *)
Definition inherited : list (string * string) :=
  [("constructor", "Object");
   ("__defineGetter__", "__defineGetter__");
   ("__defineSetter__", "__defineSetter__");
   ("hasOwnProperty", "hasOwnProperty");
   ("__lookupGetter__", "__lookupGetter__");
   ("__lookupSetter__", "__lookupSetter__");
   ("isPrototypeOf", "isPrototypeOf");
   ("propertyIsEnumerable", "propertyIsEnumerable");
   ("toString", "toString");
   ("valueOf", "valueOf");
   ("toLocaleString", "toLocaleString")].

(** What [this.logLevels[key]] is. *)
Inductive member : Type :=
| Level (z : Z)
| Method (name : string)
| Prototype
| Absent.

(** [this.logLevels[key]] *)
Definition member_of (key : jstring) : member :=
  match find (λ x, bool_decide (u x.1 = key)) logLevels with
  | Some x => Level x.2
  | None =>
      match find (λ x, bool_decide (u x.1 = key)) inherited with
      | Some x => Method x.2
      | None =>
          if bool_decide (key = u "__proto__") then Prototype else Absent
      end
  end.

(** [this.logLevels[key]] when it is a number. *)
Definition level (key : jstring) : option Z :=
  match member_of key with
  | Level z => Some z
  | _ => None
  end.

(** What [<=] makes of an operand: a number stays, a function becomes its
    source text, the prototype becomes [[object Object]], and [undefined]
    becomes NaN, here [None]. *)
Definition primitive (m : member) : option (Z + jstring) :=
  match m with
  | Level z => Some (inl z)
  | Method name => Some (inr (u "function " ++ u name
                              ++ u "() { [native code] }"))
  | Prototype => Some (inr (u "[object Object]"))
  | Absent => None
  end.

(** [a <= b]: two strings are compared as strings; otherwise both become
    numbers, a string that is no numeral becoming NaN, and a comparison with
    NaN is false. *)
Definition le (a b : member) : bool :=
  match primitive a, primitive b with
  | Some (inl x), Some (inl y) => (x <=? y)%Z
  | Some (inr s), Some (inr t) => negb (str_lt t s)
  | _, _ => false
  end.

(** [this.logLevel = process.env.LOG_LEVEL || 'info'] *)
Definition logLevel (env_LOG_LEVEL : env_var) : jstring :=
  if truthy env_LOG_LEVEL then env_text env_LOG_LEVEL else u "info".

(** [shouldLog(level)]:
    [this.logLevels[level] <= this.logLevels[this.logLevel]]; the key
    [level] is converted to a string first. *)
Definition shouldLog (this_logLevel : jstring) (name : jsval)
  : result bool :=
  key <~ tpl name;;
  Ok (le (member_of key) (member_of this_logLevel)).

End logger.

(** * Concrete remote systems and records, for the examples *)

Module scenario.

(** No response was received. *)
Definition offline : axios_error :=
  {| response := None; ax_message := u "Network Error" |}.

(** The remote answered with the status [code], outside 2xx. *)
Definition rejected (code : Z) : axios_error :=
  {| response := Some (code, JNull);
     ax_message :=
       u "Request failed with status code " ++ u (number_text code) |}.

(** Remote systems that give the listed answers, one per request, and are
    unreachable afterwards. *)
Definition scripted (answers : list (jsval + axios_error)) : Remote :=
  mkRemote (list (jsval + axios_error)) answers
    (λ _ st, match st with
             | [] => (inr offline, [])
             | r :: st' => (r, st')
             end).

Definition zoho0 : ZohoService :=
  {| clientId := Set_to (u "client");
     clientSecret := Set_to (u "secret");
     redirectUri := Set_to (u "http://localhost:3000/callback");
     zoho_baseUrl := Set_to (u "https://www.zohoapis.com/crm/v2");
     accessToken := JStr (u "stale");
     refreshToken := JStr (u "refresh") |}.

Definition trello0 : TrelloService :=
  {| apiKey := Set_to (u "key");
     token := Set_to (u "token");
     trello_baseUrl := Set_to (u "https://api.trello.com/1") |}.

Definition world (answers : list (jsval + axios_error)) : World :=
  {| zoho := zoho0; trello := trello0; remote := scripted answers;
     trace := [] |}.

Definition deal (id name stage : string) : jsval :=
  obj [("id", JStr (u id)); ("Deal_Name", JStr (u name));
       ("Stage", JStr (u stage));
       ("Type", JStr (u "New Implementation Project"))].

(** A record whose stage has moved on: it fails validation. *)
Definition deal1 : jsval := deal "D1" "Acme" "Closed Won".
Definition deal2 : jsval := deal "D2" "Globex" "Project Kickoff".
Definition deal3 : jsval := deal "D3" "Initech" "Project Kickoff".

(** A record linked to the board [B9] by an earlier write-back. *)
Definition linked : jsval :=
  obj [("id", JStr (u "D9")); ("Deal_Name", JStr (u "Hooli"));
       ("Stage", JStr (u "Project Kickoff"));
       ("Type", JStr (u "New Implementation Project"));
       ("Project_Board_ID_c", JStr (u "B9"))].

(** The own properties of a record. *)
Definition props (v : jsval) : gmap jstring jsval :=
  match v with
  | JObj m => m
  | _ => ∅
  end.

Definition with_id (id : string) : jsval := obj [("id", JStr (u id))].

(** The answer of the CRM to an update it has applied. *)
Definition updated : jsval :=
  obj [("data", JArr [obj [("code", JStr (u "SUCCESS"));
                           ("status", JStr (u "success"))]])].

(** The value a computation returned, or [d]. *)
Definition value {A} (d : A) (r : result A) : A :=
  match r with
  | Ok a => a
  | Throw _ => d
  end.

(** The error a computation threw. *)
Definition thrown {A} (r : result A) : exn :=
  match r with
  | Ok _ => Error []
  | Throw e => e
  end.

Definition no_board : ProjectBoard :=
  {| board := JUndefined;
     lists := {| todo := JUndefined; inProgress := JUndefined;
                 done := JUndefined |};
     cards := [] |}.

(** A small CRM and board service.  The CRM keeps its records: a [PUT]
    sets the properties it is given on the record with the given id and
    reports success; a [GET] gives all records.  The board service answers
    every [POST] with a new object of id B1. *)
Definition apply_update (update : gmap jstring jsval)
    (record : gmap jstring jsval) : gmap jstring jsval :=
  match field update "id" with
  | JStr id => if strict_eq_str (field record "id") id
               then update ∪ record else record
  | _ => record
  end.

Definition office (records : list (gmap jstring jsval)) : Remote :=
  mkRemote (list (gmap jstring jsval)) records
    (λ c st,
       if bool_decide (method c = u "PUT") then
         match data c with
         | JObj payload =>
             match payload !! u "data" with
             | Some (JArr [JObj update]) =>
                 (inl updated, apply_update update <$> st)
             | _ => (inr (rejected 400), st)
             end
         | _ => (inr (rejected 400), st)
         end
       else if bool_decide (method c = u "GET") then
         (inl (obj [("data", JArr (JObj <$> st))]), st)
       else (inl (with_id "B1"), st)).

(** The seven answers of the board service to [createProjectBoard]. *)
Definition board_answers : list (jsval + axios_error) :=
  inl <$> [with_id "B1"; with_id "L1"; with_id "L2"; with_id "L3";
           with_id "C1"; with_id "C2"; with_id "C3"].

End scenario.

(** * Predicates used in the statements *)

(** A field that holds a text or nothing: a string, or a falsy value such as
    [undefined] (also read from a missing property) and [null].  This is what
    the CRM gives for a text field of a record. *)
Definition text_or_falsy (v : jsval) : bool :=
  match v with
  | JStr _ => true
  | _ => negb (truthy v)
  end.

(** A field that is non-empty after trimming whitespace. *)
Definition nonblank (v : jsval) : bool :=
  match v with
  | JStr s => negb (bool_decide (trim s = []))
  | _ => false
  end.

(** A field that is unset: nothing, or a string that is empty after
    trimming. *)
Definition blank (v : jsval) : bool := text_or_falsy v && negb (nonblank v).

(** The reason [validateDeal] gives for refusing a record: the message of
    the first check that fails, in the order stage, type, name. *)
Definition refusal (stage_ok type_ok : bool) : jstring :=
  if negb stage_ok then
    u "Deal stage must be " ++ quoted (u "Project Kickoff")
  else if negb type_ok then
    u "Deal type must be " ++ quoted (u "New Implementation Project")
  else u "Deal must have a valid name".

(** A value [tpl] converts to a string. *)
Definition converts (v : jsval) : bool :=
  match tpl v with
  | Ok _ => true
  | Throw _ => false
  end.

(** The remote systems answer the requests [cs], in this order, with the
    response bodies [bs], and end in [rm']. *)
Fixpoint served (rm : Remote) (cs : list config) (bs : list jsval)
    (rm' : Remote) : Prop :=
  match cs, bs with
  | [], [] => rm' = rm
  | c :: cs', b :: bs' =>
      ∃ rm1, respond rm c = (inl b, rm1) ∧ served rm1 cs' bs' rm'
  | _, _ => False
  end.

(** A [POST] of [payload] to the board service, with the key and the token
    of the client. *)
Definition post (this : TrelloService) (endpoint : string) (payload : jsval)
  : config :=
  {| method := u "POST";
     url := env_text (trello_baseUrl this) ++ u endpoint;
     headers := ∅;
     params := list_to_map [(u "key", of_env (apiKey this));
                            (u "token", of_env (token this))];
     data := payload |}.

(** The seven requests that make a project board, spelled out: the board,
    the three lists on the board [board_id], the three cards in the list
    [todo_id]. *)
Definition project_board_requests (this : TrelloService)
    (dealName dealId board_id todo_id : jsval) : list config :=
  [ post this "/boards"
      (obj [("name", JStr (u "Project: " ++ text dealName));
            ("desc",
             JStr (u "Project board for deal: " ++ text dealName
                   ++ u " (Zoho Deal ID: " ++ text dealId ++ u ")"));
            ("defaultLists", JBool false);
            ("prefs_permissionLevel", JStr (u "private"))]);
    post this "/lists"
      (obj [("name", JStr (u "To Do")); ("idBoard", board_id);
            ("pos", JNum 1)]);
    post this "/lists"
      (obj [("name", JStr (u "In Progress")); ("idBoard", board_id);
            ("pos", JNum 2)]);
    post this "/lists"
      (obj [("name", JStr (u "Done")); ("idBoard", board_id);
            ("pos", JNum 3)]);
    post this "/cards"
      (obj [("name", JStr (u "Kickoff Meeting Scheduled"));
            ("desc", JStr (u "")); ("idList", todo_id);
            ("pos", JStr (u "bottom"))]);
    post this "/cards"
      (obj [("name", JStr (u "Requirements Gathering"));
            ("desc", JStr (u "")); ("idList", todo_id);
            ("pos", JStr (u "bottom"))]);
    post this "/cards"
      (obj [("name", JStr (u "System Setup"));
            ("desc", JStr (u "")); ("idList", todo_id);
            ("pos", JStr (u "bottom"))]) ].

(** The response of the CRM to an update reports an explicit success status
    for the record: [response.data[0].status] is ['success']. *)
Definition reports_success (response : jsval) : Prop :=
  ∃ d d0, getprop response "data" = Ok d ∧ getindex0 d = Ok d0
          ∧ getprop d0 "status" = Ok (JStr (u "success")).

(** What [getEligibleDeals] makes of the response to its search. *)
Definition eligible_in (response : jsval) : result (list jsval) :=
  response_data <~ getprop response "data";;
  if negb (truthy response_data) then Ok []
  else
    response_data <~ getprop response "data";;
    call_filter response_data "response.data.filter"
      zohoService.board_id_empty.

(** The request [makeRequest] issues from a client whose token converts to
    a string. *)
Definition zoho_request (this : ZohoService)
    (endpoint method : jstring) (data : jsval) : config :=
  zohoService.request_with this endpoint method data
    (text (accessToken this)).

(** What [updateDealWithBoardId] makes of the response to its update, for
    a record id that converts to a string: its last log line converts the
    board id. *)
Definition update_outcome (dealId boardId response : jsval) : result jsval :=
  failed <~ zohoService.update_failed response;;
  if failed then
    Throw (Error (u "Failed to update deal " ++ text dealId
                  ++ u " in Zoho. See logs for details."))
  else
    _ <~ tpl boardId;;
    Ok response.

(** The access token a token refresh obtains from the answer [r] of the
    OAuth server; none when the request or the reading of the answer fails. *)
Definition granted (r : jsval + axios_error) : option jsval :=
  match r with
  | inl response_data =>
      match getprop response_data "access_token" with
      | Ok access_token => Some access_token
      | Throw _ => None
      end
  | inr _ => None
  end.

(** The value of a computation that returned. *)
Definition value_of {A} (r : result A) : option A :=
  match r with
  | Ok a => Some a
  | Throw _ => None
  end.

(** A method that only adds requests to the trace. *)
Definition appends {A} (m : M A) : Prop :=
  ∀ w r w', m w = (r, w') → ∃ t, trace w' = trace w ++ t.

(** A method all of whose requests satisfy [P]. *)
Definition issues (P : client * config → Prop) {A} (m : M A) : Prop :=
  ∀ w r w', m w = (r, w') → ∃ t, trace w' = trace w ++ t ∧ Forall P t.

(** The requests of the synchronizer: searches and updates of the CRM, token
    posts to its OAuth server, creations on the board service. *)
Definition sync_request (x : client * config) : Prop :=
  match x.1 with
  | ZohoApi => method x.2 = u "GET" ∨ method x.2 = u "PUT"
  | ZohoAccounts => method x.2 = u "post"
  | TrelloApi => method x.2 = u "POST"
  end.

(** The details with the status [st]. *)
Definition with_status (st : string) (ds : list Detail) : list Detail :=
  filter (λ d, status d = u st) ds.

(** The answers of the board service to the seven requests of a project
    board. *)
Definition project_board_answers
    (b todoList inProgressList doneList card1 card2 card3 : jsval)
  : list jsval :=
  [b; todoList; inProgressList; doneList; card1; card2; card3].

(** A request that writes: one to the board service, or an update of a
    record of the CRM. *)
Definition is_write (x : client * config) : Prop :=
  x.1 = TrelloApi ∨ method x.2 = u "PUT".

(** A record the loop of [syncDealsToTrello] does not skip: the test at the
    head of the loop gives [false]. *)
Definition unlinked (deal : jsval) : bool :=
  match integrationService.has_board_id deal with
  | Ok false => true
  | _ => false
  end.

(** The log lines of the loop can be built for the record: the test at the
    head of the loop can be evaluated, the id of the record converts to a
    string and, when the record is skipped, so does its name. *)
Definition loggable (deal : jsval) : bool :=
  match integrationService.has_board_id deal,
        getprop deal "id", getprop deal "Deal_Name" with
  | Ok true, Ok deal_id, Ok deal_name =>
      converts deal_id && converts deal_name
  | Ok false, Ok deal_id, _ => converts deal_id
  | _, _, _ => false
  end.

(** The detail [d] carries the id and the name of the record [deal]. *)
Definition describes (d : Detail) (deal : jsval) : Prop :=
  getprop deal "id" = Ok (dealId d)
  ∧ getprop deal "Deal_Name" = Ok (dealName d).

(** The counters of [results] agree with its details. *)
Definition tallied (results : SyncResult) : Prop :=
  created results = length (with_status "success" (details results))
  ∧ errors results = length (with_status "error" (details results))
  ∧ created results + errors results = length (details results).


(** * Properties of [validateDeal] *)

Section validateDeal_facts.
Import integrationService.

Lemma getprop_obj m k : getprop (JObj m) k = Ok (field m k).
Proof. reflexivity. Qed.

(** Conversion to a string. *)
Lemma tpl_text v s : tpl v = Ok s → text v = s.
Proof. unfold text. by intros ->. Qed.

Lemma converts_text v : converts v = true → tpl v = Ok (text v).
Proof. unfold converts, text. by destruct (tpl v). Qed.

Lemma tpl_converts v s : tpl v = Ok s → converts v = true.
Proof. unfold converts. by intros ->. Qed.

Lemma jsval_ind_list (P : jsval → Prop) :
  P JUndefined → P JNull → (∀ b, P (JBool b)) → (∀ z, P (JNum z)) →
  (∀ s, P (JStr s)) → (∀ l, Forall P l → P (JArr l)) → (∀ m, P (JObj m)) →
  ∀ v, P v.
Proof.
  intros Hu Hn Hb Hz Hs Harr Hobj. fix IH 1.
  intros [| |b|z|s|l|m];
    [exact Hu|exact Hn|apply Hb|apply Hz|apply Hs| |apply Hobj].
  apply Harr. induction l as [|e l IHl]; constructor; [apply IH|exact IHl].
Qed.

(** The only error of a conversion. *)
Lemma tpl_error v e : tpl v = Throw e → e = cannot_convert.
Proof.
  revert e.
  induction v as [| |[]|z|s|l IH|m] using jsval_ind_list; intros x;
    cbn [tpl]; try done.
  - destruct (mapR _ l) as [parts|y] eqn:E; cbn [bindR]; [done|].
    intros [= ->]. revert x E.
    induction l as [|e l IHl]; intros x; [done|].
    apply Forall_cons in IH as [He Hl]. cbn [mapR].
    destruct (match e with JUndefined | JNull => Ok [] | _ => tpl e end)
      as [s|y] eqn:Ee; cbn [bindR].
    + destruct (mapR _ l) as [r|y] eqn:Er; cbn [bindR]; [done|].
      intros [= ->]. by apply IHl.
    + intros [= ->]. apply He. by destruct e.
  - case_bool_decide; [|done]. by intros [= <-].
Qed.

Lemma tpl_throws v : converts v = false → tpl v = Throw cannot_convert.
Proof.
  unfold converts. destruct (tpl v) as [s|e] eqn:E; [done|].
  by rewrite (tpl_error _ _ E).
Qed.

Lemma validate_loop_obj m vs :
  validate_loop (JObj m) vs
  = match find (λ v, negb (truthy (condition v))) vs with
    | None => Ok {| warnings := []; valid := true |}
    | Some v =>
        deal_id_text <~ tpl (field m "id");;
        Ok {| warnings :=
                [u "Deal " ++ deal_id_text ++ u " validation failed: "
                 ++ validation_message v];
              valid := false |}
    end.
Proof.
  induction vs as [|v vs IH]; [done|].
  cbn [validate_loop find]. rewrite getprop_obj. cbn [bindR].
  by destruct (negb (truthy (condition v))).
Qed.

(** The third condition, [deal.Deal_Name && deal.Deal_Name.trim() !== ''],
    on a name that is a text or nothing. *)
Lemma validations_text m :
  text_or_falsy (field m "Deal_Name") = true →
  ∃ c,
    truthy c = nonblank (field m "Deal_Name") ∧
    validations (JObj m)
    = Ok [ {| condition :=
                JBool (strict_eq_str (field m "Stage") (u "Project Kickoff"));
              validation_message :=
                u "Deal stage must be " ++ quoted (u "Project Kickoff") |};
           {| condition :=
                JBool (strict_eq_str (field m "Type")
                         (u "New Implementation Project"));
              validation_message :=
                u "Deal type must be "
                ++ quoted (u "New Implementation Project") |};
           {| condition := c;
              validation_message := u "Deal must have a valid name" |} ].
Proof.
  intros Hname. unfold validations. rewrite !getprop_obj. cbn [bindR].
  destruct (field m "Deal_Name") as [| |b|z|s|l|o] eqn:E;
    cbn in Hname |- *; try discriminate;
    try (eexists; split; [|reflexivity]; done).
  - destruct b; [discriminate|]. by exists (JBool false).
  - destruct (z =? 0)%Z eqn:Ez; [|discriminate].
    exists (JNum z); split; [|reflexivity]. cbn. by rewrite Ez.
  - destruct s as [|c s]; [by exists (JStr [])|].
    by exists (JBool (negb (bool_decide (trim (c :: s) = [])))).
Qed.

(** On a record whose name is a truthy value other than a string, building
    the [validations] array throws: the value has no [trim] method. *)
Lemma validations_not_text m :
  text_or_falsy (field m "Deal_Name") = false →
  validateDeal (JObj m) = Throw (not_a_function "deal.Deal_Name.trim").
Proof.
  intros Hname. unfold validateDeal, validateDeal_logged, validations.
  rewrite !getprop_obj. cbn [bindR].
  destruct (field m "Deal_Name") as [| |b|z|s|l|o] eqn:E;
    cbn in Hname |- *; try discriminate; try done.
  - destruct b; [done|discriminate].
  - destruct (z =? 0)%Z; [discriminate|done].
Qed.

(** [validateDeal] with its warnings, on a record whose name is a text or
    nothing. *)
Lemma validateDeal_logged_text m :
  text_or_falsy (field m "Deal_Name") = true →
  let stage_ok := strict_eq_str (field m "Stage") (u "Project Kickoff") in
  let type_ok :=
    strict_eq_str (field m "Type") (u "New Implementation Project") in
  validateDeal_logged (JObj m)
  = if stage_ok && type_ok && nonblank (field m "Deal_Name") then
      Ok {| warnings := []; valid := true |}
    else
      deal_id_text <~ tpl (field m "id");;
      Ok {| warnings :=
              [u "Deal " ++ deal_id_text ++ u " validation failed: "
               ++ refusal stage_ok type_ok];
            valid := false |}.
Proof.
  intros Hname stage_ok type_ok.
  destruct (validations_text m Hname) as (c & Hc & Hvs).
  unfold validateDeal_logged. rewrite Hvs. cbn [bindR].
  rewrite validate_loop_obj. cbn [find condition truthy validation_message].
  fold stage_ok type_ok. rewrite Hc. unfold refusal.
  by destruct stage_ok, type_ok, (nonblank (field m "Deal_Name")).
Qed.

Lemma validateDeal_text m :
  text_or_falsy (field m "Deal_Name") = true →
  validateDeal (JObj m)
  = if strict_eq_str (field m "Stage") (u "Project Kickoff")
       && strict_eq_str (field m "Type") (u "New Implementation Project")
       && nonblank (field m "Deal_Name")
    then Ok true
    else _ <~ tpl (field m "id");; Ok false.
Proof.
  intros Hname. unfold validateDeal.
  rewrite (validateDeal_logged_text m Hname).
  destruct (_ && _ && _); [done|].
  by destruct (tpl (field m "id")).
Qed.

(** When [validateDeal] has returned, the name of the record is a text or
    nothing, so that it converts to a string; and when it has returned
    [false], it has converted the id of the record for its warning. *)
Lemma validateDeal_returned m b :
  validateDeal (JObj m) = Ok b →
  text_or_falsy (field m "Deal_Name") = true
  ∧ converts (field m "Deal_Name") = true
  ∧ (b = false → converts (field m "id") = true).
Proof.
  intros H.
  destruct (text_or_falsy (field m "Deal_Name")) eqn:Hname;
    [|by rewrite validations_not_text in H].
  split; [done|]. split.
  - clear H. by destruct (field m "Deal_Name") as [| |[]|z|s|l|o].
  - intros ->. rewrite validateDeal_text in H by done.
    destruct (_ && _ && _); [done|].
    unfold converts. by destruct (tpl (field m "id")).
Qed.

(** C6, as stated, fails: a record whose stage is not "Project Kickoff" and
    whose name is the number 5 is not refused; [validateDeal] throws while it
    evaluates the condition on the name. *)
Lemma validateDeal_throws_before_the_stage_is_checked :
  validateDeal (obj [("Stage", JStr (u "Closed Won")); ("Deal_Name", JNum 5)])
  = Throw (TypeError (u "deal.Deal_Name.trim is not a function")).
Proof. by vm_compute. Qed.

(** C6, amended.  [validateDeal] evaluates the three conditions, then checks
    them in the order stage, type, name and stops at the first that fails:
    it warns once, with the id of the record and the reason of that check,
    and returns [false]; when all three pass it warns of nothing and returns
    [true].  This is so on every record object whose name is a string or a
    falsy value.  On such a record a name that is empty or all whitespace,
    and a stage other than "Project Kickoff", give [false] whatever the
    other fields are, as soon as the id of the record converts to a string
    for the warning. *)
Theorem validateDeal_checks (m : gmap jstring jsval) :
  text_or_falsy (field m "Deal_Name") = true →
  let stage_ok := strict_eq_str (field m "Stage") (u "Project Kickoff") in
  let type_ok :=
    strict_eq_str (field m "Type") (u "New Implementation Project") in
  let name_ok := nonblank (field m "Deal_Name") in
  validateDeal_logged (JObj m)
  = (if stage_ok && type_ok && name_ok then
       Ok {| warnings := []; valid := true |}
     else
       deal_id_text <~ tpl (field m "id");;
       Ok {| warnings :=
               [u "Deal " ++ deal_id_text ++ u " validation failed: "
                ++ (if negb stage_ok then
                      u "Deal stage must be " ++ quoted (u "Project Kickoff")
                    else if negb type_ok then
                      u "Deal type must be "
                      ++ quoted (u "New Implementation Project")
                    else u "Deal must have a valid name")];
             valid := false |})
  ∧ (validateDeal (JObj m) = Ok true ↔ stage_ok && type_ok && name_ok = true)
  ∧ (converts (field m "id") = true →
     validateDeal (JObj m) = Ok (stage_ok && type_ok && name_ok)
     ∧ (name_ok = false → validateDeal (JObj m) = Ok false)
     ∧ (field m "Stage" ≠ JStr (u "Project Kickoff") →
        validateDeal (JObj m) = Ok false)).
Proof.
  intros Hname stage_ok type_ok name_ok.
  pose proof (validateDeal_logged_text m Hname) as Hl.
  pose proof (validateDeal_text m Hname) as Hv.
  cbv zeta in Hl. fold stage_ok type_ok name_ok in Hl, Hv.
  split_and!.
  - exact Hl.
  - rewrite Hv. destruct (stage_ok && type_ok && name_ok); [done|].
    split; [|done]. by destruct (tpl (field m "id")).
  - intros Hid. apply converts_text in Hid.
    assert (validateDeal (JObj m) = Ok (stage_ok && type_ok && name_ok))
      as Hv'.
    { rewrite Hv, Hid. by destruct (stage_ok && type_ok && name_ok). }
    split_and!; [done| |].
    + intros E. rewrite Hv', E. by rewrite andb_false_r.
    + intros Hstage. rewrite Hv'.
      assert (stage_ok = false) as ->; [|done].
      unfold stage_ok, strict_eq_str.
      destruct (field m "Stage"); try done.
      case_bool_decide; congruence.
Qed.

(** The theorem at a record that passes and at one whose stage has moved on. *)
Lemma validateDeal_checks_witness :
  validateDeal scenario.deal3 = Ok true
  ∧ validateDeal_logged scenario.deal1
    = Ok {| warnings :=
              [u "Deal D1 validation failed: Deal stage must be "
               ++ quoted (u "Project Kickoff")];
            valid := false |}.
Proof.
  split.
  - by apply (validateDeal_checks (scenario.props scenario.deal3) eq_refl).
  - exact (proj1 (validateDeal_checks (scenario.props scenario.deal1)
                    eq_refl)).
Defined.

(** C10, as stated, fails: on a record object whose name is [true],
    [validateDeal] throws a TypeError instead of returning a boolean. *)
Lemma validateDeal_throws_on_boolean_name :
  validateDeal (obj [("Deal_Name", JBool true)])
  = Throw (TypeError (u "deal.Deal_Name.trim is not a function"))
  ∧ ¬ (∀ m : gmap jstring jsval, ∃ b, validateDeal (JObj m) = Ok b).
Proof.
  split; [by vm_compute|].
  intros H. destruct (H {[ u "Deal_Name" := JBool true ]}) as [b Hb].
  vm_compute in Hb. discriminate Hb.
Qed.

(** It fails as well on a record without a name whose id is an object with
    a property [toString]: the warning cannot be built. *)
Example validateDeal_throws_on_an_id_that_does_not_convert :
  validateDeal (obj [("id", obj [("toString", JNull)])])
  = Throw (TypeError (u "Cannot convert object to primitive value")).
Proof. by vm_compute. Qed.

(** C10, amended.  On every record object whose name is a string or a falsy
    value (missing, [undefined], [null], ...) and whose id converts to a
    string, whatever its stage and type are or whether it has them,
    [validateDeal] returns a boolean and does not throw; a record with a
    missing or [undefined] name yields [false].  When it throws on a
    record with such a name, it is the TypeError of an id that does not
    convert to a string for the warning. *)
Theorem validateDeal_total_on_text_names (m : gmap jstring jsval) :
  text_or_falsy (field m "Deal_Name") = true →
  (converts (field m "id") = true →
   (∃ b, validateDeal (JObj m) = Ok b)
   ∧ (field m "Deal_Name" = JUndefined → validateDeal (JObj m) = Ok false))
  ∧ (∀ e, validateDeal (JObj m) = Throw e →
          converts (field m "id") = false ∧ e = cannot_convert).
Proof.
  intros Hname. rewrite (validateDeal_text m Hname). split.
  - intros Hid. apply converts_text in Hid. rewrite Hid. cbn [bindR].
    split; [destruct (_ && _ && _); by eexists|].
    intros ->. by rewrite andb_false_r.
  - intros e. destruct (_ && _ && _); [done|].
    destruct (converts (field m "id")) eqn:Hid.
    + apply converts_text in Hid. by rewrite Hid.
    + rewrite (tpl_throws _ Hid). by intros [= <-].
Qed.

(** The theorem at a record with no property at all. *)
Lemma validateDeal_total_on_text_names_witness :
  validateDeal (JObj ∅) = Ok false.
Proof.
  destruct (validateDeal_total_on_text_names ∅) as [H _]; [reflexivity|].
  by apply H.
Defined.

End validateDeal_facts.

(** * Reasoning about asynchronous methods *)

Section monad_facts.
Context {A B : Type}.

Lemma bindM_ok (m : M A) (k : A → M B) w a w1 :
  m w = (Ok a, w1) → bindM m k w = k a w1.
Proof. intros H. unfold bindM. by rewrite H. Qed.

Lemma bindM_throw (m : M A) (k : A → M B) w e w1 :
  m w = (Throw e, w1) → bindM m k w = (Throw e, w1).
Proof. intros H. unfold bindM. by rewrite H. Qed.

Lemma bind_pure_ok (a : A) (k : A → M B) w :
  bindM (pure (Ok a)) k w = k a w.
Proof. reflexivity. Qed.

Lemma bind_pure_throw e (k : A → M B) w :
  bindM (pure (Throw e)) k w = (Throw e, w).
Proof. reflexivity. Qed.

Lemma bind_throw e (k : A → M B) w : bindM (throw e) k w = (Throw e, w).
Proof. reflexivity. Qed.

Lemma bind_ret (a : A) (k : A → M B) w : bindM (ret a) k w = k a w.
Proof. reflexivity. Qed.

Lemma bindM_assoc {C} (m : M A) (f : A → M B) (g : B → M C) w :
  bindM (bindM m f) g w = bindM m (λ x, bindM (f x) g) w.
Proof. unfold bindM. by destruct (m w) as [[a|e] w1]. Qed.

(** A run whose result is known, whatever world it ends in. *)
Lemma returned (p : result A * World) a : p.1 = Ok a → p = (Ok a, p.2).
Proof. destruct p as [r w]; cbn. by intros ->. Qed.

Lemma threw (p : result A * World) e : p.1 = Throw e → p = (Throw e, p.2).
Proof. destruct p as [r w]; cbn. by intros ->. Qed.

Lemma bindM_inv_ok (m : M A) (k : A → M B) w b w' :
  bindM m k w = (Ok b, w') →
  ∃ a w1, m w = (Ok a, w1) ∧ k a w1 = (Ok b, w').
Proof.
  unfold bindM. destruct (m w) as [[a|e] w1]; [|done]. intros H. eauto.
Qed.

(** A handler that only logs and rethrows changes nothing. *)
Lemma try_rethrow (m : M A) w : try_catch m (λ error, throw error) w = m w.
Proof. unfold try_catch, throw. by destruct (m w) as [[a|e] w1]. Qed.

Lemma Ok_inj (x y : A) : Ok x = Ok y → x = y.
Proof. by intros [= ->]. Qed.

Lemma try_catch_inv_ok (m : M A) h w a w' :
  try_catch m h w = (Ok a, w') →
  m w = (Ok a, w') ∨ ∃ e w1, m w = (Throw e, w1) ∧ h e w1 = (Ok a, w').
Proof. unfold try_catch. destruct (m w) as [[x|e] w1]; eauto. Qed.

Lemma pure_inv_ok (r : result A) w a w' :
  pure r w = (Ok a, w') → r = Ok a ∧ w' = w.
Proof. unfold pure. by intros [= -> ->]. Qed.

Lemma ret_inv_ok (x : A) w a w' : ret x w = (Ok a, w') → a = x ∧ w' = w.
Proof. unfold ret. by intros [= -> ->]. Qed.

End monad_facts.

(** One step of a computation whose head is known. *)
Ltac mstep :=
  lazymatch goal with
  | |- context [bindM (pure (Ok ?a)) ?k ?w] => rewrite (bind_pure_ok a k w)
  | |- context [bindM (pure (Throw ?e)) ?k ?w] =>
      rewrite (bind_pure_throw e k w)
  | |- context [bindM (ret ?a) ?k ?w] => rewrite (bind_ret a k w)
  | |- context [bindM (throw ?e) ?k ?w] => rewrite (bind_throw e k w)
  | |- context [bindM (bindM ?m ?f) ?g ?w] => rewrite (bindM_assoc m f g w)
  | |- context [@throw ?A ?e ?w] => change (@throw A e w) with (@Throw A e, w)
  | |- context [@ret ?A ?a ?w] => change (@ret A a w) with (Ok a, w)
  | |- context [@pure ?A ?r ?w] => change (@pure A r w) with (r, w)
  end.

(** A conversion whose outcome is known. *)
Ltac conv :=
  match goal with
  | H : converts ?x = true |- context [tpl ?x] => rewrite (converts_text x H)
  | H : converts ?x = false |- context [tpl ?x] => rewrite (tpl_throws x H)
  end.

Ltac msimpl := repeat (first [mstep | conv | progress cbv beta iota]).

Lemma appends_ret {A} (a : A) : appends (ret a).
Proof. intros w r w' [= _ <-]. exists []. by rewrite app_nil_r. Qed.

Lemma appends_throw {A} e : appends (@throw A e).
Proof. intros w r w' [= _ <-]. exists []. by rewrite app_nil_r. Qed.

Lemma appends_pure {A} (x : result A) : appends (pure x).
Proof. intros w r w' [= _ <-]. exists []. by rewrite app_nil_r. Qed.

Lemma appends_bind {A B} (m : M A) (k : A → M B) :
  appends m → (∀ a, appends (k a)) → appends (bindM m k).
Proof.
  intros Hm Hk w r w'. unfold bindM.
  destruct (m w) as [[a|e] w1] eqn:E; apply Hm in E as [t1 E].
  - intros [t2 H]%Hk. exists (t1 ++ t2). by rewrite H, E, <- List.app_assoc.
  - intros [= _ <-]. eauto.
Qed.

Lemma appends_try_catch {A} (m : M A) (h : exn → M A) :
  appends m → (∀ e, appends (h e)) → appends (try_catch m h).
Proof.
  intros Hm Hh w r w'. unfold try_catch.
  destruct (m w) as [[a|e] w1] eqn:E; apply Hm in E as [t1 E].
  - intros [= _ <-]. eauto.
  - intros [t2 H]%Hh. exists (t1 ++ t2). by rewrite H, E, <- List.app_assoc.
Qed.

Lemma appends_for_of {A B} (xs : list A) (body : A → B → M B) acc :
  (∀ x b, appends (body x b)) → appends (for_of xs body acc).
Proof.
  intros Hbody. revert acc.
  induction xs as [|x xs IH]; intros acc; cbn [for_of].
  - apply appends_ret.
  - apply appends_bind; [apply Hbody|]. intros b. apply (IH b).
Qed.

Lemma appends_axios who c : appends (axios who c).
Proof.
  intros w r w'. unfold axios. destruct (respond _ _) as [r0 rm].
  intros [= _ <-]. by eexists.
Qed.

Lemma appends_get_zoho : appends get_zoho.
Proof. intros w r w' [= _ <-]. exists []. by rewrite app_nil_r. Qed.

Lemma appends_get_trello : appends get_trello.
Proof. intros w r w' [= _ <-]. exists []. by rewrite app_nil_r. Qed.

Lemma appends_set_accessToken v : appends (set_accessToken v).
Proof. intros w r w' [= _ <-]. exists []. by rewrite app_nil_r. Qed.

(** Proves that a method built from the steps above appends. *)
Ltac appends_steps :=
  repeat first
    [ apply appends_ret | apply appends_throw | apply appends_pure
    | apply appends_axios | apply appends_get_zoho | apply appends_get_trello
    | apply appends_set_accessToken
    | apply appends_bind; [|intros ?]
    | apply appends_try_catch; [|intros ?]
    | apply appends_for_of; intros ? ?
    | match goal with
      | |- appends (if ?b then _ else _) => destruct b
      | |- appends (let _ := _ in _) => cbv zeta
      end
    | assumption ].

Lemma axios_inv_ok who c w b w' :
  axios who c w = (Ok b, w') →
  ∃ rm, respond (remote w) c = (inl b, rm) ∧ w' = issued w who [c] rm.
Proof.
  unfold axios. destruct (respond (remote w) c) as [[b'|e] rm]; [|done].
  cbn. intros [= -> <-]. eauto.
Qed.

(** Inversion of a hypothesis saying that a sequence of steps returned. *)
Ltac inv_ok H :=
  repeat match type of H with
  | try_catch _ (λ error, throw error) _ = _ => rewrite try_rethrow in H
  | bindM _ _ _ = (Ok _, _) =>
      let a := fresh "a" in let w := fresh "w" in
      let H1 := fresh "H" in
      apply bindM_inv_ok in H as (a & w & H1 & H);
      try inv_ok H1
  | pure _ _ = (Ok _, _) =>
      let E := fresh "E" in
      apply pure_inv_ok in H as [E ->]
  | ret _ _ = (Ok _, _) => apply ret_inv_ok in H as [-> ->]
  end.


(** * Properties of the Zoho client *)

Section zoho_facts.
Import zohoService.

(** Two worlds that differ in the bracketing of their traces. *)
Ltac world_eq :=
  unfold issued, with_zoho; cbn;
  repeat (f_equal; []); rewrite <- ?List.app_assoc; done.

Lemma axios_eq who c w r rm :
  respond (remote w) c = (r, rm) →
  axios who c w = (settle r, issued w who [c] rm).
Proof. intros H. unfold axios. by rewrite H. Qed.

(** What [refreshAccessToken] does, from the answer of the OAuth server. *)
Lemma refreshAccessToken_eq w r rm :
  respond (remote w) (token_request (zoho w)) = (r, rm) →
  refreshAccessToken w
  = match granted r with
    | Some tok =>
        (Ok tok,
         with_zoho (issued w ZohoAccounts [token_request (zoho w)] rm)
           (with_accessToken (zoho w) tok))
    | None =>
        (Throw (Error (u "Failed to refresh access token")),
         issued w ZohoAccounts [token_request (zoho w)] rm)
    end.
Proof.
  intros H. unfold refreshAccessToken, try_catch, bindM, get_zoho.
  rewrite (axios_eq _ _ _ _ _ H).
  destruct r as [b|e]; cbn [settle granted]; [|done].
  unfold pure. destruct (getprop b "access_token"); done.
Qed.

Lemma request_config_eq this endpoint verb payload :
  request_config this endpoint verb payload
  = if converts (accessToken this)
    then Ok (zoho_request this endpoint verb payload)
    else Throw cannot_convert.
Proof.
  unfold request_config, zoho_request.
  destruct (converts (accessToken this)) eqn:H.
  - by rewrite (converts_text _ H).
  - by rewrite (tpl_throws _ H).
Qed.

(** Without a token that converts to a string no request is built. *)
Lemma makeRequest_no_token endpoint verb payload w :
  converts (accessToken (zoho w)) = false →
  makeRequest endpoint verb payload w = (Throw cannot_convert, w).
Proof.
  intros H. unfold makeRequest, try_catch, bindM, get_zoho, pure.
  by rewrite request_config_eq, H.
Qed.

(** The first request of [makeRequest] and what follows from its answer. *)
Lemma makeRequest_unfold endpoint verb payload w r0 rm1 :
  converts (accessToken (zoho w)) = true →
  let c0 := zoho_request (zoho w) endpoint verb payload in
  respond (remote w) c0 = (r0, rm1) →
  makeRequest endpoint verb payload w
  = match r0 with
    | inl b => (Ok b, issued w ZohoApi [c0] rm1)
    | inr e =>
        if response_status_is (AxiosError e) 401 then
          (_ <- refreshAccessToken;;
           this <- get_zoho;;
           config <- pure (request_config this endpoint verb payload);;
           axios ZohoApi config)
            (issued w ZohoApi [c0] rm1)
        else (Throw (AxiosError e), issued w ZohoApi [c0] rm1)
    end.
Proof.
  intros Htok c0 H0.
  unfold makeRequest, try_catch at 1, bindM at 1, get_zoho at 1.
  rewrite request_config_eq, Htok. unfold bindM at 1, pure at 1.
  rewrite (axios_eq _ _ _ _ _ H0). destruct r0 as [b|e]; cbn [settle]; [done|].
  by destruct (response_status_is (AxiosError e) 401).
Qed.

(** The retry, from the refreshed token and the answer to the retried
    request. *)
Lemma retry_eq endpoint verb payload w :
  (this <- get_zoho;;
   config <- pure (request_config this endpoint verb payload);;
   axios ZohoApi config) w
  = if converts (accessToken (zoho w)) then
      axios ZohoApi (zoho_request (zoho w) endpoint verb payload) w
    else (Throw cannot_convert, w).
Proof.
  unfold bindM, get_zoho, pure. rewrite request_config_eq.
  by destruct (converts (accessToken (zoho w))).
Qed.

(** The requests [makeRequest] issues: the request, then at most a token
    refresh and the request again; none when the token of the client does
    not convert to a string. *)
Lemma makeRequest_trace endpoint verb payload w r w' :
  makeRequest endpoint verb payload w = (r, w') →
  trello w' = trello w
  ∧ ∃ t, trace w' = trace w ++ t
         ∧ (t = [] ↔ converts (accessToken (zoho w)) = false)
         ∧ Forall (λ x, x.1 = ZohoAccounts ∧ method x.2 = u "post"
                        ∨ x.1 = ZohoApi ∧ method x.2 = verb) t.
Proof.
  destruct (converts (accessToken (zoho w))) eqn:Htok; last first.
  { rewrite makeRequest_no_token by done. intros [= <- <-].
    split; [done|]. exists []. by rewrite app_nil_r. }
  destruct (respond (remote w) (zoho_request (zoho w) endpoint verb payload))
    as [r0 rm1] eqn:H0.
  rewrite (makeRequest_unfold _ _ _ _ _ _ Htok H0).
  assert (∀ c rm, c = zoho_request (zoho w) endpoint verb payload →
            trello (issued w ZohoApi [c] rm) = trello w
            ∧ ∃ t, trace (issued w ZohoApi [c] rm) = trace w ++ t
                   ∧ (t = [] ↔ true = false)
                   ∧ Forall (λ x, x.1 = ZohoAccounts ∧ method x.2 = u "post"
                                  ∨ x.1 = ZohoApi ∧ method x.2 = verb) t)
    as Hone.
  { intros c rm ->. split; [done|]. eexists; split_and!; [done..|].
    by apply Forall_singleton; right. }
  destruct r0 as [b|e]; [intros [= <- <-]; by apply Hone|].
  destruct (response_status_is (AxiosError e) 401);
    [|intros [= <- <-]; by apply Hone].
  clear H0 Hone. set (w1 := issued w ZohoApi _ rm1).
  destruct (respond (remote w1) (token_request (zoho w1))) as [r1 rm2] eqn:H1.
  unfold bindM at 1. rewrite (refreshAccessToken_eq _ _ _ H1).
  destruct (granted r1) as [tok|].
  - clear H1. rewrite retry_eq.
    cbn [zoho with_zoho with_accessToken accessToken].
    destruct (converts tok).
    + unfold axios. destruct (respond _ _) as [r2 rm3].
      intros [= <- <-]. split; [done|]. eexists; split_and!.
      * unfold issued, with_zoho, w1; cbn. by rewrite <- !List.app_assoc.
      * done.
      * repeat (apply Forall_cons; split; [cbn; by auto|]). by apply Forall_nil.
    + intros [= <- <-]. split; [done|]. eexists; split_and!.
      * unfold issued, with_zoho, w1; cbn. by rewrite <- !List.app_assoc.
      * done.
      * repeat (apply Forall_cons; split; [cbn; by auto|]). by apply Forall_nil.
  - intros [= <- <-]. split; [done|]. eexists; split_and!.
    + unfold issued, w1; cbn. by rewrite <- !List.app_assoc.
    + done.
    + repeat (apply Forall_cons; split; [cbn; by auto|]). by apply Forall_nil.
Qed.

(** C9, as stated, fails: the CRM answers 401 and the OAuth server grants a
    token that is an object with a property [toString]; the header of the
    retry cannot be built, and [makeRequest] throws a TypeError after the
    request and the refresh, without a retry. *)
Lemma makeRequest_gives_up_without_a_retry :
  let w := scenario.world
             [inr (scenario.rejected 401);
              inl (obj [("access_token", obj [("toString", JNull)])]);
              inl (obj [("org", JArr [])])] in
  (makeRequest (u "/org") (u "GET") JNull w).1 = Throw cannot_convert
  ∧ fst <$> trace (makeRequest (u "/org") (u "GET") JNull w).2
    = [ZohoApi; ZohoAccounts].
Proof. by vm_compute. Qed.

(** C9, amended.  When the CRM answers a request with status 401,
    [makeRequest] refreshes the token once and, when the new token converts
    to a string for the header, retries the same request once with it: the
    requests issued are the request, the token refresh and the retry, and
    the outcome of the retry, a response or a failure, is the outcome of the
    call.  When the new token does not convert, the call fails with a
    TypeError after the request and the refresh, without a retry.  When the
    refresh fails, the call fails after the request and the refresh, without
    a retry.  Every failure other than a 401 is rethrown after the one
    request. *)
Theorem makeRequest_refreshes_once
    (endpoint verb : jstring) (payload : jsval) (w : World)
    (e : axios_error) (rm1 : Remote) :
  converts (accessToken (zoho w)) = true →
  let c0 := zoho_request (zoho w) endpoint verb payload in
  let refresh := token_request (zoho w) in
  respond (remote w) c0 = (inr e, rm1) →
  if response_status_is (AxiosError e) 401 then
    ∀ r1 rm2, respond rm1 refresh = (r1, rm2) →
      match granted r1 with
      | None =>
          makeRequest endpoint verb payload w
          = (Throw (Error (u "Failed to refresh access token")),
             {| zoho := zoho w; trello := trello w; remote := rm2;
                trace := trace w ++ [(ZohoApi, c0); (ZohoAccounts, refresh)] |})
      | Some tok =>
          let this := with_accessToken (zoho w) tok in
          if converts tok then
            let c2 := zoho_request this endpoint verb payload in
            method c2 = method c0 ∧ url c2 = url c0 ∧ data c2 = data c0
            ∧ headers c2 !! u "Authorization"
              = Some (u "Zoho-oauthtoken " ++ text tok)
            ∧ ∀ r2 rm3, respond rm2 c2 = (r2, rm3) →
                makeRequest endpoint verb payload w
                = (settle r2,
                   {| zoho := this; trello := trello w; remote := rm3;
                      trace := trace w ++ [(ZohoApi, c0);
                                           (ZohoAccounts, refresh);
                                           (ZohoApi, c2)] |})
          else
            makeRequest endpoint verb payload w
            = (Throw cannot_convert,
               {| zoho := this; trello := trello w; remote := rm2;
                  trace := trace w ++ [(ZohoApi, c0);
                                       (ZohoAccounts, refresh)] |})
      end
  else
    makeRequest endpoint verb payload w
    = (Throw (AxiosError e),
       {| zoho := zoho w; trello := trello w; remote := rm1;
          trace := trace w ++ [(ZohoApi, c0)] |}).
Proof.
  intros Htok c0 refresh H0. subst c0 refresh.
  rewrite (makeRequest_unfold _ _ _ _ _ _ Htok H0).
  destruct (response_status_is (AxiosError e) 401); [|done].
  intros r1 rm2 H1.
  pose proof
    (refreshAccessToken_eq
       (issued w ZohoApi [zoho_request (zoho w) endpoint verb payload] rm1)
       r1 rm2 H1) as Hrefresh.
  destruct (granted r1) as [tok|].
  - cbv zeta. destruct (converts tok) eqn:Hc.
    + split_and!; [done..|]. intros r2 rm3 H2.
      unfold bindM at 1. rewrite Hrefresh, retry_eq.
      cbn [zoho with_zoho with_accessToken accessToken]. rewrite Hc.
      rewrite (axios_eq _ _ _ r2 rm3); [|exact H2].
      world_eq.
    + unfold bindM at 1. rewrite Hrefresh, retry_eq.
      cbn [zoho with_zoho with_accessToken accessToken]. rewrite Hc.
      world_eq.
  - unfold bindM at 1. rewrite Hrefresh. world_eq.
Qed.

(** [getEligibleDeals] is its search followed by the filter. *)
Lemma getEligibleDeals_eq w :
  getEligibleDeals w
  = let '(r, w1) := makeRequest search_endpoint (u "GET") JNull w in
    (bindR r eligible_in, w1).
Proof.
  unfold getEligibleDeals. rewrite try_rethrow. unfold bindM.
  destruct (makeRequest _ _ _ w) as [[response|e] w1]; [|done].
  unfold eligible_in, pure, ret. cbn [bindR].
  destruct (getprop response "data") as [d|e]; cbn [bindR]; [|done].
  destruct (negb (truthy d)); [done|].
  by destruct (call_filter _ _ _).
Qed.

(** [updateDealWithBoardId]: no request for a record id that does not
    convert to a string; otherwise its update followed by the test of the
    response. *)
Lemma updateDealWithBoardId_eq dealId boardId w :
  updateDealWithBoardId dealId boardId w
  = if converts dealId then
      let '(r, w1) := makeRequest (u "/Deals/" ++ text dealId) (u "PUT")
                        (updateData dealId boardId) w in
      (bindR r (update_outcome dealId boardId), w1)
    else (Throw cannot_convert, w).
Proof.
  unfold updateDealWithBoardId, try_catch.
  destruct (converts dealId) eqn:Hc.
  - rewrite (converts_text _ Hc). rewrite bind_pure_ok.
    cbv zeta. unfold bindM at 1.
    destruct (makeRequest _ _ _ w) as [[response|e] w1]; [|done].
    cbn [bindR]. unfold update_outcome. unfold bindM at 1, pure at 1.
    destruct (update_failed response) as [[]|e]; cbn [bindR];
      unfold bindM, pure, ret, throw; [done| |done].
    by destruct (tpl boardId).
  - unfold bindM, pure, throw. by rewrite (tpl_throws _ Hc).
Qed.

(** The requests of [getEligibleDeals] read: none goes to the board service
    and none updates a record. *)
Lemma getEligibleDeals_reads w r w' :
  getEligibleDeals w = (r, w') →
  trello w' = trello w
  ∧ ∃ t, trace w' = trace w ++ t ∧ Forall (λ x, ¬ is_write x) t.
Proof.
  rewrite getEligibleDeals_eq.
  destruct (makeRequest _ _ _ w) as [r1 w1] eqn:H. intros [= _ <-].
  apply makeRequest_trace in H as (Ht & t & Htr & _ & Hall).
  split; [done|]. exists t. split; [done|].
  eapply Forall_impl; [exact Hall|]. intros [who c]; cbn.
  unfold is_write; cbn. intros [[-> Hm]|[-> Hm]] [?|Hput]; try done.
  - rewrite Hm in Hput. by vm_compute in Hput.
  - rewrite Hm in Hput. by vm_compute in Hput.
Qed.

(** The test of the response fails unless the response reports an explicit
    success for the record. *)
Lemma update_failed_false response :
  update_failed response = Ok false ↔ reports_success response.
Proof.
  unfold update_failed, reports_success. split.
  - destruct (getprop response "data") as [d|] eqn:Ed; cbn [bindR]; [|done].
    destruct (truthy d); cbn [negb]; [|done].
    destruct (getindex0 d) as [d0|] eqn:Ed0; cbn [bindR]; [|done].
    destruct (truthy d0); cbn [negb]; [|done].
    destruct (getprop d0 "status") as [st|] eqn:Est; cbn [bindR]; [|done].
    destruct st as [| | | |s| |]; cbn; try done.
    case_bool_decide as Hs; [|done]. simplify_eq. intros _. eauto.
  - intros (d & d0 & Ed & Ed0 & Est). rewrite Ed. cbn [bindR].
    assert (truthy d0 = true) as Hd0.
    { destruct d0; try done; cbn in Est; by case_bool_decide. }
    assert (truthy d = true) as Hd.
    { destruct d as [| |b|z|s|l|m]; try done; cbn in Ed0; simplify_eq;
        try done.
      by destruct s. }
    rewrite Hd, Ed0. cbn [negb bindR]. rewrite Hd0, Est. cbn.
    by rewrite bool_decide_eq_true_2.
Qed.

Lemma getprop_total v k :
  v ≠ JUndefined → v ≠ JNull → ∃ x, getprop v k = Ok x.
Proof. destruct v; intros; try done; by eexists. Qed.

Lemma getindex0_total v :
  v ≠ JUndefined → v ≠ JNull → ∃ x, getindex0 v = Ok x.
Proof. destruct v; intros; try done; by eexists. Qed.

Lemma truthy_not_nullish v : truthy v = true → v ≠ JUndefined ∧ v ≠ JNull.
Proof. by destruct v. Qed.

(** The test of the response throws on no response other than [undefined]
    and [null]. *)
Lemma update_failed_total response :
  response ≠ JUndefined → response ≠ JNull →
  ∃ b, update_failed response = Ok b.
Proof.
  intros H1 H2. unfold update_failed.
  destruct (getprop_total response "data" H1 H2) as [d ->]. cbn [bindR].
  destruct (truthy d) eqn:Hd; cbn [negb]; [|by eexists].
  apply truthy_not_nullish in Hd as [Hd1 Hd2].
  destruct (getindex0_total d Hd1 Hd2) as [d0 ->]. cbn [bindR].
  destruct (truthy d0) eqn:Hd0; cbn [negb]; [|by eexists].
  apply truthy_not_nullish in Hd0 as [? ?].
  destruct (getprop_total d0 "status") as [st ->]; [done..|]. by eexists.
Qed.

(** The board reference that [updateDealWithBoardId] writes is the property
    Project_Board_ID_c; the filter of [getEligibleDeals] reads the property
    Project_Board_ID__c, so it keeps a record whatever was written. *)
Lemma board_id_empty_after_write_back (m : gmap jstring jsval) boardId :
  truthy (field m "Project_Board_ID__c") = false →
  board_id_empty (JObj (<[u "Project_Board_ID_c" := boardId]> m)) = Ok true.
Proof.
  intros H. unfold board_id_empty. rewrite getprop_obj. cbn [bindR].
  unfold field in *. rewrite lookup_insert_ne; [|by vm_compute].
  by rewrite H.
Qed.

Lemma filter_keeps_unlabelled (ms : list (gmap jstring jsval)) :
  Forall (λ m, truthy (field m "Project_Board_ID__c") = false) ms →
  filterR board_id_empty (JObj <$> ms) = Ok (JObj <$> ms).
Proof.
  induction 1 as [|m ms Hm Hms IH]; [done|].
  rewrite fmap_cons. cbn [filterR]. rewrite IH.
  unfold board_id_empty. rewrite getprop_obj. cbn [bindR].
  by rewrite Hm.
Qed.

(** C3, on the code: when the records of the search result have no property
    Project_Board_ID__c, [getEligibleDeals] returns all of them, also those
    whose board reference Project_Board_ID_c is set. *)
Theorem getEligibleDeals_returns_linked_records
    (w w' : World) (ms : list (gmap jstring jsval)) :
  makeRequest search_endpoint (u "GET") JNull w
  = (Ok (obj [("data", JArr (JObj <$> ms))]), w') →
  Forall (λ m, truthy (field m "Project_Board_ID__c") = false) ms →
  getEligibleDeals w = (Ok (JObj <$> ms), w').
Proof.
  intros H Hms. rewrite getEligibleDeals_eq, H. cbn [bindR]. f_equal.
  unfold eligible_in.
  change (getprop (obj _) "data") with (Ok (JArr (JObj <$> ms))).
  cbn [bindR truthy negb call_filter]. by apply filter_keeps_unlabelled.
Qed.

(** A run links the record D3 to its board; the next fetch returns the
    record again, with its board reference, and the next run has to skip
    it. *)
Example linked_record_is_fetched_again :
  let w := {| zoho := scenario.zoho0; trello := scenario.trello0;
              remote := scenario.office [scenario.props scenario.deal3];
              trace := [] |} in
  let w1 := (integrationService.syncDealsToTrello w).2 in
  created <$> value_of (integrationService.syncDealsToTrello w).1 = Some 1
  ∧ (getEligibleDeals w1).1
    = Ok [JObj (<[u "Project_Board_ID_c" := JStr (u "B1")]>
                  (scenario.props scenario.deal3))]
  ∧ (integrationService.syncDealsToTrello w1).1
    = Ok {| processed := 1; created := 0; errors := 0; details := [] |}.
Proof. by vm_compute. Qed.

(** The theorem at a search result that holds a record linked to the board
    B9 by an earlier write-back: the record is returned. *)
Lemma getEligibleDeals_returns_linked_records_witness :
  let w := scenario.world
             [inl (obj [("data", JArr [scenario.linked])])] in
  getprop scenario.linked "Project_Board_ID_c" = Ok (JStr (u "B9"))
  ∧ (getEligibleDeals w).1 = Ok [scenario.linked].
Proof.
  intros w. split; [reflexivity|].
  erewrite (getEligibleDeals_returns_linked_records w _
              [scenario.props scenario.linked]).
  - reflexivity.
  - apply returned. by vm_compute.
  - by repeat constructor.
Defined.

(** The theorem at a request answered with 401, then a token, then the
    response to the retry. *)
Lemma makeRequest_refreshes_once_witness :
  let w := scenario.world
             [inr (scenario.rejected 401);
              inl (obj [("access_token", JStr (u "fresh"))]);
              inl (obj [("org", JArr [])])] in
  ∃ w', makeRequest (u "/org") (u "GET") JNull w
        = (Ok (obj [("org", JArr [])]), w')
        ∧ accessToken (zoho w') = JStr (u "fresh")
        ∧ fst <$> trace w' = [ZohoApi; ZohoAccounts; ZohoApi].
Proof.
  intros w.
  pose proof
    (makeRequest_refreshes_once (u "/org") (u "GET") JNull w
       (scenario.rejected 401)
       (scenario.scripted [inl (obj [("access_token", JStr (u "fresh"))]);
                           inl (obj [("org", JArr [])])])
       eq_refl eq_refl) as H.
  change (response_status_is _ 401) with true in H. cbv iota in H.
  specialize (H (inl (obj [("access_token", JStr (u "fresh"))]))
                (scenario.scripted [inl (obj [("org", JArr [])])]) eq_refl).
  change (granted _) with (Some (JStr (u "fresh"))) in H.
  change (converts (JStr (u "fresh"))) with true in H. cbv iota zeta in H.
  destruct H as (_ & _ & _ & _ & H).
  specialize (H (inl (obj [("org", JArr [])])) (scenario.scripted [])
                eq_refl).
  eexists. split; [exact H|]. split; reflexivity.
Defined.

(** A failure other than a 401 is rethrown at once. *)
Example makeRequest_no_retry_on_500 :
  let w := scenario.world [inr (scenario.rejected 500); inl JNull] in
  ∃ w', makeRequest (u "/org") (u "GET") JNull w
        = (Throw (AxiosError (scenario.rejected 500)), w')
        ∧ fst <$> trace w' = [ZohoApi].
Proof. eexists. split; [apply threw; by vm_compute|]. by vm_compute. Qed.

End zoho_facts.


(** * Properties of the Trello client *)

Section trello_facts.
Import trelloService.

(** The request of a [POST] with the payload [payload], an object. *)
Lemma request_config_post this endpoint (l : list (string * jsval)) :
  request_config this (u endpoint) (u "POST") (obj l)
  = post this endpoint (obj l).
Proof. reflexivity. Qed.

Lemma makeRequest_inv_ok endpoint verb payload w b w' :
  makeRequest endpoint verb payload w = (Ok b, w') →
  let c := request_config (trello w) endpoint verb payload in
  ∃ rm, respond (remote w) c = (inl b, rm) ∧ w' = issued w TrelloApi [c] rm.
Proof.
  unfold makeRequest. intros H. inv_ok H. unfold get_trello in *.
  injection H0 as <- <-. by apply axios_inv_ok.
Qed.

Lemma makeRequest_ok endpoint verb payload w b rm :
  respond (remote w) (request_config (trello w) endpoint verb payload)
  = (inl b, rm) →
  makeRequest endpoint verb payload w
  = (Ok b, issued w TrelloApi
             [request_config (trello w) endpoint verb payload] rm).
Proof.
  intros H. unfold makeRequest. rewrite try_rethrow.
  unfold bindM, get_trello. by rewrite (axios_eq _ _ _ _ _ H).
Qed.

(** Every call of [makeRequest] issues one request to the board service. *)
Lemma makeRequest_issues endpoint verb payload w r w' :
  makeRequest endpoint verb payload w = (r, w') →
  ∃ c, trace w' = trace w ++ [(TrelloApi, c)].
Proof.
  unfold makeRequest. rewrite try_rethrow. unfold bindM, get_trello, axios.
  destruct (respond _ _) as [r0 rm]. intros [= <- <-]. by eexists.
Qed.

(** A creation that returned was answered, and the id its log line shows
    converted to a string. *)
Lemma createBoard_inv_ok name description w b w' :
  createBoard name description w = (Ok b, w') →
  let c := request_config (trello w) (u "/boards") (u "POST")
             (boardData name description) in
  (∃ rm, respond (remote w) c = (inl b, rm)
         ∧ w' = issued w TrelloApi [c] rm)
  ∧ ∃ board_id, getprop b "id" = Ok board_id ∧ converts board_id = true.
Proof.
  unfold createBoard. intros H. inv_ok H.
  apply makeRequest_inv_ok in H0. split; [done|].
  eexists. split; [eassumption|]. by eapply tpl_converts.
Qed.

Lemma createList_inv_ok boardId listName position w l w' :
  createList boardId listName position w = (Ok l, w') →
  let c := request_config (trello w) (u "/lists") (u "POST")
             (listData boardId listName position) in
  (∃ rm, respond (remote w) c = (inl l, rm)
         ∧ w' = issued w TrelloApi [c] rm)
  ∧ converts boardId = true.
Proof.
  unfold createList. intros H. inv_ok H. apply makeRequest_inv_ok in H0.
  split; [done|]. by eapply tpl_converts.
Qed.

Lemma createCard_inv_ok listId cardName description w k w' :
  createCard listId cardName description w = (Ok k, w') →
  let c := request_config (trello w) (u "/cards") (u "POST")
             (cardData listId cardName description) in
  (∃ rm, respond (remote w) c = (inl k, rm)
         ∧ w' = issued w TrelloApi [c] rm)
  ∧ converts listId = true.
Proof.
  unfold createCard. intros H. inv_ok H. apply makeRequest_inv_ok in H0.
  split; [done|]. by eapply tpl_converts.
Qed.

Lemma createBoard_ok name description w b rm board_id :
  respond (remote w)
    (request_config (trello w) (u "/boards") (u "POST")
       (boardData name description)) = (inl b, rm) →
  getprop b "id" = Ok board_id →
  converts board_id = true →
  createBoard name description w
  = (Ok b, issued w TrelloApi
             [request_config (trello w) (u "/boards") (u "POST")
                (boardData name description)] rm).
Proof.
  intros H Hid Hc. unfold createBoard. rewrite try_rethrow.
  rewrite (bindM_ok _ _ _ _ _ (makeRequest_ok _ _ _ _ _ _ H)).
  unfold bindM, pure, ret. by rewrite Hid, (converts_text _ Hc).
Qed.

Lemma createList_ok boardId listName position w l rm :
  respond (remote w)
    (request_config (trello w) (u "/lists") (u "POST")
       (listData boardId listName position)) = (inl l, rm) →
  converts boardId = true →
  createList boardId listName position w
  = (Ok l, issued w TrelloApi
             [request_config (trello w) (u "/lists") (u "POST")
                (listData boardId listName position)] rm).
Proof.
  intros H Hc. unfold createList. rewrite try_rethrow.
  rewrite (bindM_ok _ _ _ _ _ (makeRequest_ok _ _ _ _ _ _ H)).
  unfold bindM, pure, ret. by rewrite (converts_text _ Hc).
Qed.

Lemma createCard_ok listId cardName description w k rm :
  respond (remote w)
    (request_config (trello w) (u "/cards") (u "POST")
       (cardData listId cardName description)) = (inl k, rm) →
  converts listId = true →
  createCard listId cardName description w
  = (Ok k, issued w TrelloApi
             [request_config (trello w) (u "/cards") (u "POST")
                (cardData listId cardName description)] rm).
Proof.
  intros H Hc. unfold createCard. rewrite try_rethrow.
  rewrite (bindM_ok _ _ _ _ _ (makeRequest_ok _ _ _ _ _ _ H)).
  unfold bindM, pure, ret. by rewrite (converts_text _ Hc).
Qed.

(** The two template literals at the head of [createProjectBoard]. *)
Lemma boardName_eq dealName :
  boardName dealName
  = if converts dealName then Ok (u "Project: " ++ text dealName)
    else Throw cannot_convert.
Proof.
  unfold boardName. destruct (converts dealName) eqn:H.
  - by rewrite (converts_text _ H).
  - by rewrite (tpl_throws _ H).
Qed.

Lemma boardDescription_eq dealName dealId :
  boardDescription dealName dealId
  = if converts dealName && converts dealId then
      Ok (u "Project board for deal: " ++ text dealName
          ++ u " (Zoho Deal ID: " ++ text dealId ++ u ")")
    else Throw cannot_convert.
Proof.
  unfold boardDescription. destruct (converts dealName) eqn:H.
  - rewrite (converts_text _ H). cbn [bindR andb].
    destruct (converts dealId) eqn:H'.
    + by rewrite (converts_text _ H').
    + by rewrite (tpl_throws _ H').
  - by rewrite (tpl_throws _ H).
Qed.

(** When the board service answers the seven requests, and the answers for
    the board and for the list To Do are not [undefined] or [null],
    [createProjectBoard] returns. *)
Lemma createProjectBoard_returns dealName dealId w rm'
    b todoList inProgressList doneList card1 card2 card3 board_id todo_id :
  let requests :=
    project_board_requests (trello w) dealName dealId board_id todo_id in
  converts dealName = true → converts dealId = true →
  getprop b "id" = Ok board_id → converts board_id = true →
  getprop todoList "id" = Ok todo_id → converts todo_id = true →
  served (remote w) requests
    [b; todoList; inProgressList; doneList; card1; card2; card3] rm' →
  createProjectBoard dealName dealId w
  = (Ok {| board := b;
           lists := {| todo := todoList; inProgress := inProgressList;
                       done := doneList |};
           cards := [card1; card2; card3] |},
     issued w TrelloApi requests rm').
Proof.
  intros requests Hn Hi Hb Hbc Ht Htc Hs. subst requests.
  cbn [served project_board_requests] in Hs.
  destruct Hs as (rm1 & R1 & rm2 & R2 & rm3 & R3 & rm4 & R4 & rm5 & R5
                  & rm6 & R6 & rm7 & R7 & ->).
  unfold createProjectBoard, try_catch.
  match goal with
  | |- match ?m w with _ => _ end = _ =>
      assert (m w
              = (Ok {| board := b;
                       lists := {| todo := todoList;
                                   inProgress := inProgressList;
                                   done := doneList |};
                       cards := [card1; card2; card3] |},
                 issued w TrelloApi
                   (project_board_requests (trello w) dealName dealId
                      board_id todo_id) rm7)) as ->; [|done]
  end.
  unfold initialCards. cbn [for_of].
  rewrite boardName_eq, boardDescription_eq, Hn, Hi. cbn [andb].
  rewrite !bind_pure_ok.
  erewrite bindM_ok; [|by eapply createBoard_ok].
  rewrite Hb, bind_pure_ok.
  erewrite bindM_ok; [|by eapply createList_ok].
  rewrite bind_pure_ok.
  erewrite bindM_ok; [|by eapply createList_ok].
  rewrite bind_pure_ok.
  erewrite bindM_ok; [|by eapply createList_ok].
  rewrite Ht.
  do 3 (rewrite ?bindM_assoc, bind_pure_ok, ?bindM_assoc;
        (erewrite bindM_ok; [|by eapply createCard_ok]);
        rewrite ?bindM_assoc, bind_ret).
  rewrite ?bindM_assoc, !bind_ret. rewrite (converts_text _ Hn).
  rewrite bind_pure_ok.
  unfold ret. f_equal.
  unfold issued; cbn. f_equal. by rewrite <- !List.app_assoc.
Qed.

(** What a call of [createProjectBoard] that returned has done. *)
Lemma createProjectBoard_inv_ok dealName dealId w w' pb :
  createProjectBoard dealName dealId w = (Ok pb, w') →
  ∃ b todoList inProgressList doneList card1 card2 card3 board_id todo_id,
    getprop b "id" = Ok board_id
    ∧ getprop todoList "id" = Ok todo_id
    ∧ (converts dealName = true ∧ converts dealId = true
       ∧ converts board_id = true ∧ converts todo_id = true)
    ∧ served (remote w)
        (project_board_requests (trello w) dealName dealId board_id todo_id)
        [b; todoList; inProgressList; doneList; card1; card2; card3]
        (remote w')
    ∧ w' = issued w TrelloApi
             (project_board_requests (trello w) dealName dealId board_id
                todo_id) (remote w')
    ∧ pb = {| board := b;
              lists := {| todo := todoList; inProgress := inProgressList;
                          done := doneList |};
              cards := [card1; card2; card3] |}.
Proof.
  intros H. unfold createProjectBoard in H.
  apply try_catch_inv_ok in H as [H|(e & w1 & _ & H)]; last first.
  { unfold bindM, pure, throw in H. by destruct (tpl dealName). }
  unfold initialCards in H. cbn [for_of] in H. inv_ok H.
  rewrite boardName_eq in E. rewrite boardDescription_eq in E0.
  destruct (converts dealName) eqn:Hn; [|done].
  destruct (converts dealId) eqn:Hi; [|done].
  cbn [andb] in E0. apply Ok_inj in E as <-. apply Ok_inj in E0 as <-.
  repeat match goal with
  | H : createBoard _ _ _ = (Ok _, _) |- _ =>
      apply createBoard_inv_ok in H as [(? & ? & ->) (? & ? & ?)]
  | H : createList _ _ _ _ = (Ok _, _) |- _ =>
      apply createList_inv_ok in H as [(? & ? & ->) ?]
  | H : createCard _ _ _ _ = (Ok _, _) |- _ =>
      apply createCard_inv_ok in H as [(? & ? & ->) ?]
  | H1 : ?t = Ok ?x, H2 : ?t = Ok ?y |- _ =>
      rewrite H1 in H2; injection H2 as <-
  end.
  cbn [issued trello remote] in *.
  unfold boardData, listData, cardData in *.
  rewrite !request_config_post in *.
  do 9 eexists. split_and!; last reflexivity.
  - eassumption.
  - eassumption.
  - done.
  - done.
  - eassumption.
  - eassumption.
  - cbn [served project_board_requests].
    repeat (eexists; split; [eassumption|]). reflexivity.
  - unfold issued. cbn [trace fmap list_fmap project_board_requests].
    repeat (f_equal; []). rewrite <- !List.app_assoc. reflexivity.
Qed.

(** C4. A call of [createProjectBoard] that returns has issued exactly seven
    requests to the board service, all answered, in this order: the creation
    of one board named "Project: " followed by the name, whose description
    embeds the record id; the creation of the lists To Do, In Progress and
    Done on that board at the positions 1, 2 and 3; the creation of the cards
    Kickoff Meeting Scheduled, Requirements Gathering and System Setup in the
    list To Do.  It returns the board, the three lists and the three cards as
    the board service answered them. *)
Theorem createProjectBoard_shape
    (dealName dealId : jsval) (w w' : World) (pb : ProjectBoard) :
  createProjectBoard dealName dealId w = (Ok pb, w') →
  ∃ b todoList inProgressList doneList card1 card2 card3 board_id todo_id,
    let requests :=
      project_board_requests (trello w) dealName dealId board_id todo_id in
    getprop b "id" = Ok board_id
    ∧ getprop todoList "id" = Ok todo_id
    ∧ length requests = 7
    ∧ served (remote w) requests
        [b; todoList; inProgressList; doneList; card1; card2; card3]
        (remote w')
    ∧ trace w' = trace w ++ ((λ c, (TrelloApi, c)) <$> requests)
    ∧ zoho w' = zoho w ∧ trello w' = trello w
    ∧ pb = {| board := b;
              lists := {| todo := todoList; inProgress := inProgressList;
                          done := doneList |};
              cards := [card1; card2; card3] |}.
Proof.
  intros H.
  destruct (createProjectBoard_inv_ok _ _ _ _ _ H)
    as (b & todoList & inProgressList & doneList & card1 & card2 & card3
        & board_id & todo_id & Hb & Ht & _ & Hs & Hw & Hpb).
  exists b, todoList, inProgressList, doneList, card1, card2, card3,
    board_id, todo_id.
  cbv zeta. split_and!; try done.
  - by rewrite Hw at 1.
  - by rewrite Hw at 1.
  - by rewrite Hw at 1.
Qed.

(** The theorem at the board of the record D3, on a board service that
    answers the seven requests. *)
Lemma createProjectBoard_shape_witness :
  let r := createProjectBoard (JStr (u "Initech")) (JStr (u "D3"))
             (scenario.world scenario.board_answers) in
  ∃ pb, r.1 = Ok pb ∧ length (cards pb) = 3 ∧ length (trace r.2) = 7.
Proof.
  intros r. pose (pb := scenario.value scenario.no_board r.1).
  assert (createProjectBoard (JStr (u "Initech")) (JStr (u "D3"))
            (scenario.world scenario.board_answers) = (Ok pb, r.2)) as H
    by (apply returned; by vm_compute).
  destruct (createProjectBoard_shape _ _ _ _ _ H)
    as (b & l1 & l2 & l3 & c1 & c2 & c3 & bid & tid
        & _ & _ & _ & _ & Ht & _ & _ & Hpb).
  exists pb. split; [by vm_compute|]. rewrite Hpb, Ht.
  split; reflexivity.
Defined.

End trello_facts.


(** * Properties of the synchronizer *)

Section sync_facts.
Import integrationService.

Lemma appends_createProjectBoard n d :
  appends (trelloService.createProjectBoard n d).
Proof.
  unfold trelloService.createProjectBoard, trelloService.createBoard,
    trelloService.createList, trelloService.createCard,
    trelloService.makeRequest.
  appends_steps.
Qed.

Lemma appends_refreshAccessToken : appends zohoService.refreshAccessToken.
Proof. unfold zohoService.refreshAccessToken. appends_steps. Qed.

Lemma appends_updateDealWithBoardId i b :
  appends (zohoService.updateDealWithBoardId i b).
Proof.
  pose proof appends_refreshAccessToken.
  unfold zohoService.updateDealWithBoardId, zohoService.makeRequest.
  appends_steps.
Qed.

Lemma appends_processDeal deal : appends (processDeal deal).
Proof.
  pose proof appends_createProjectBoard.
  pose proof appends_updateDealWithBoardId.
  unfold processDeal. appends_steps.
Qed.

Lemma for_of_app {A B} (xs ys : list A) (body : A → B → M B) acc w :
  for_of (xs ++ ys) body acc w
  = bindM (for_of xs body acc) (for_of ys body) w.
Proof.
  revert acc w. induction xs as [|x xs IH]; intros acc w; [done|].
  cbn [app for_of]. unfold bindM in IH |- *.
  destruct (body x acc w) as [[acc'|e] w1]; [|done]. apply IH.
Qed.

(** The test at the head of the loop, on a record whose board reference is
    a text or nothing. *)
Lemma has_board_id_text m :
  text_or_falsy (field m "Project_Board_ID_c") = true →
  has_board_id (JObj m) = Ok (nonblank (field m "Project_Board_ID_c")).
Proof.
  intros H. unfold has_board_id. rewrite !getprop_obj. cbn [bindR].
  destruct (field m "Project_Board_ID_c") as [| |b|z|s|l|o];
    cbn in H |- *; try done.
  - by destruct b.
  - by destruct (z =? 0)%Z.
  - by destruct s.
Qed.

Lemma has_board_id_blank m :
  blank (field m "Project_Board_ID_c") = true →
  has_board_id (JObj m) = Ok false.
Proof.
  unfold blank. intros [H1 H2%negb_true_iff]%andb_true_iff.
  by rewrite has_board_id_text, H2.
Qed.

Lemma has_board_id_set m s :
  field m "Project_Board_ID_c" = JStr s → trim s ≠ [] →
  has_board_id (JObj m) = Ok true.
Proof.
  intros E Hs. rewrite has_board_id_text; rewrite E; [|done].
  cbn. by rewrite bool_decide_eq_false_2.
Qed.

(** [processDeal] on a record, step by step.  Its first log line converts
    the name and the id of the record; when one of them does not convert,
    nothing else is done. *)
Lemma processDeal_eq m w :
  processDeal (JObj m) w
  = if converts (field m "Deal_Name") && converts (field m "id") then
      match validateDeal (JObj m) with
      | Throw e => (Throw e, w)
      | Ok false => (Throw (Error (u "Deal does not meet all criteria")), w)
      | Ok true =>
          match trelloService.createProjectBoard
                  (field m "Deal_Name") (field m "id") w with
          | (Throw e, w1) => (Throw e, w1)
          | (Ok pb, w1) =>
              match getprop (board pb) "id" with
              | Throw e => (Throw e, w1)
              | Ok board_id =>
                  match zohoService.updateDealWithBoardId
                          (field m "id") board_id w1 with
                  | (Throw e, w2) => (Throw e, w2)
                  | (Ok _, w2) =>
                      match tpl board_id, getprop (board pb) "url" with
                      | Throw e, _ => (Throw e, w2)
                      | Ok _, Throw e => (Throw e, w2)
                      | Ok _, Ok board_url =>
                          (Ok {| pd_dealId := field m "id";
                                 pd_dealName := field m "Deal_Name";
                                 boardId := board_id;
                                 boardUrl := board_url |}, w2)
                      end
                  end
              end
          end
      end
    else (Throw cannot_convert, w).
Proof.
  unfold processDeal, try_catch. rewrite !getprop_obj. msimpl.
  destruct (converts (field m "Deal_Name")) eqn:Hn; cbn [andb]; last first.
  { msimpl. by destruct (converts (field m "id")) eqn:Hi; msimpl. }
  destruct (converts (field m "id")) eqn:Hi; msimpl; [|done].
  destruct (validateDeal (JObj m)) as [[]|e]; msimpl; cbn [negb]; msimpl;
    [|done..].
  unfold bindM at 1.
  destruct (trelloService.createProjectBoard _ _ w) as [[pb|e] w1];
    msimpl; [|done].
  destruct (getprop (board pb) "id") as [board_id|e]; msimpl; [|done].
  unfold bindM at 1.
  destruct (zohoService.updateDealWithBoardId _ _ w1) as [[r|e] w2];
    msimpl; [|done].
  destruct (tpl board_id); msimpl; [|done].
  destruct (getprop (board pb) "url"); by msimpl.
Qed.

(** The body of the loop on a record that is not skipped: the outcome of
    [processDeal] becomes an entry of the details, unless the id of the
    record does not convert to a string for the log line of the error. *)
Lemma sync_deal_eq m results w :
  has_board_id (JObj m) = Ok false →
  sync_deal (JObj m) results w
  = match processDeal (JObj m) w with
    | (Ok _, w') =>
        (Ok {| processed := processed results;
               created := S (created results);
               errors := errors results;
               details :=
                 details results
                 ++ [success_detail (field m "id") (field m "Deal_Name")] |},
         w')
    | (Throw e, w') =>
        if converts (field m "id") then
          (Ok {| processed := processed results;
                 created := created results;
                 errors := S (errors results);
                 details :=
                   details results
                   ++ [error_detail (field m "id") (field m "Deal_Name") e]
              |},
           w')
        else (Throw cannot_convert, w')
    end.
Proof.
  intros H. unfold sync_deal, loop_body. rewrite H. msimpl.
  unfold try_catch, bindM at 1.
  destruct (processDeal (JObj m) w) as [[r|e] w']; rewrite !getprop_obj;
    msimpl; [done|].
  by destruct (converts (field m "id")) eqn:Hi; msimpl.
Qed.

(** The body of the loop on a record that is skipped, whatever the method
    [processDeal] is. *)
Lemma loop_body_skip process m results w :
  has_board_id (JObj m) = Ok true →
  loop_body process (JObj m) results w
  = (if converts (field m "id") && converts (field m "Deal_Name")
     then Ok results else Throw cannot_convert, w).
Proof.
  intros H. unfold loop_body. rewrite H, !getprop_obj. msimpl.
  destruct (converts (field m "id")) eqn:Hi; cbn [andb]; msimpl; [|done].
  by destruct (converts (field m "Deal_Name")) eqn:Hn; msimpl.
Qed.

(** [syncDealsToTrello] from the outcome of the fetch. *)
Lemma syncDealsToTrello_eq w :
  syncDealsToTrello w
  = match zohoService.getEligibleDeals w with
    | (Throw e, w0) => (Throw e, w0)
    | (Ok [], w0) =>
        (Ok {| processed := 0; created := 0; errors := 0; details := [] |},
         w0)
    | (Ok eligibleDeals, w0) =>
        for_of eligibleDeals sync_deal
          {| processed := length eligibleDeals; created := 0; errors := 0;
             details := [] |} w0
    end.
Proof.
  unfold syncDealsToTrello. rewrite try_rethrow. unfold bindM at 1.
  destruct (zohoService.getEligibleDeals w) as [[[|d ds]|e] w0]; try done.
  cbn [length bool_decide]. rewrite bool_decide_eq_false_2; [|done].
  cbv zeta. unfold bindM at 1.
  destruct (for_of _ _ _ w0) as [[r|e] w']; done.
Qed.

(** C1, as stated, fails: the record is linked to the board B9 and its id
    is an object with a property [toString]; the log line of the skip
    cannot be built, the body of the loop throws, and the run ends with this
    error instead of a result. *)
Lemma linked_record_with_an_id_that_does_not_convert :
  let deal := obj [("id", obj [("toString", JNull)]);
                   ("Deal_Name", JStr (u "Hooli"));
                   ("Project_Board_ID_c", JStr (u "B9"))] in
  let w := scenario.world [inl (obj [("data", JArr [deal])])] in
  has_board_id deal = Ok true
  ∧ sync_deal deal
      {| processed := 1; created := 0; errors := 0; details := [] |} w
    = (Throw cannot_convert, w)
  ∧ (syncDealsToTrello w).1 = Throw cannot_convert.
Proof. by vm_compute. Qed.

(** C1, amended.  A record whose board reference Project_Board_ID_c is a
    string that is non-empty after trimming is never processed: whatever
    the method [processDeal] is, the body of the loop leaves the world as it
    is, so that no request is issued for the record, and it changes neither
    counter and adds no detail.  It returns the results as they are when the
    id and the name of the record convert to strings, and throws otherwise.
    For a record whose id and name convert, a whole run over a fetched list
    that holds the record is the run over the other records, with the record
    counted in [processed] only. *)
Theorem linked_record_is_skipped (m : gmap jstring jsval) (s : jstring) :
  field m "Project_Board_ID_c" = JStr s → trim s ≠ [] →
  (∀ process results w,
     loop_body process (JObj m) results w
     = (if converts (field m "id") && converts (field m "Deal_Name")
        then Ok results else Throw cannot_convert, w))
  ∧ (converts (field m "id") = true → converts (field m "Deal_Name") = true →
     (∀ results w, sync_deal (JObj m) results w = (Ok results, w))
     ∧ ∀ w w0 before after,
         zohoService.getEligibleDeals w
         = (Ok (before ++ JObj m :: after), w0) →
         syncDealsToTrello w
         = for_of (before ++ after) sync_deal
             {| processed := S (length (before ++ after)); created := 0;
                errors := 0; details := [] |} w0).
Proof.
  intros E Hs. pose proof (has_board_id_set m s E Hs) as Hskip.
  split.
  - intros process results w. by apply loop_body_skip.
  - intros Hi Hn.
    assert (∀ results w, sync_deal (JObj m) results w = (Ok results, w))
      as Hsync.
    { intros results w. unfold sync_deal.
      by rewrite loop_body_skip, Hi, Hn. }
    split; [done|].
    intros w w0 before after Hfetch.
    rewrite syncDealsToTrello_eq, Hfetch.
    assert (length (before ++ JObj m :: after) = S (length (before ++ after)))
      as ->.
    { rewrite !length_app. cbn. lia. }
    rewrite !for_of_app. unfold bindM.
    destruct (before ++ JObj m :: after) eqn:El;
      [by destruct before|clear El].
    destruct (for_of before _ _ w0) as [[acc|e] w1]; [|done].
    cbn [for_of]. unfold bindM. by rewrite Hsync.
Qed.

(** The theorem at the record linked to the board B9. *)
Lemma linked_record_is_skipped_witness :
  sync_deal scenario.linked
    {| processed := 1; created := 0; errors := 0; details := [] |}
    (scenario.world [])
  = (Ok {| processed := 1; created := 0; errors := 0; details := [] |},
     scenario.world []).
Proof.
  apply (linked_record_is_skipped (scenario.props scenario.linked) (u "B9")).
  - reflexivity.
  - by vm_compute.
  - reflexivity.
  - reflexivity.
Defined.

(** C7. When nothing is eligible, [syncDealsToTrello] returns the result
    with zero counts and no details, in the world the fetch left: the only
    requests of the run are those of the fetch, none of which goes to the
    board service or updates a record. *)
Theorem sync_nothing_eligible (w w0 : World) :
  zohoService.getEligibleDeals w = (Ok [], w0) →
  syncDealsToTrello w
  = (Ok {| processed := 0; created := 0; errors := 0; details := [] |}, w0)
  ∧ ∃ t, trace w0 = trace w ++ t ∧ Forall (λ x, ¬ is_write x) t.
Proof.
  intros H. rewrite syncDealsToTrello_eq, H. split; [done|].
  by apply getEligibleDeals_reads in H as [_ ?].
Qed.

(** The theorem at a CRM whose search finds nothing. *)
Lemma sync_nothing_eligible_witness :
  let w := scenario.world [inl (obj [("data", JArr [])])] in
  (syncDealsToTrello w).1
  = Ok {| processed := 0; created := 0; errors := 0; details := [] |}.
Proof.
  intros w.
  assert (zohoService.getEligibleDeals w
          = (Ok [], (zohoService.getEligibleDeals w).2)) as H
    by (apply returned; by vm_compute).
  by rewrite (proj1 (sync_nothing_eligible _ _ H)).
Defined.

(** C8. When the fetch throws, [syncDealsToTrello] throws the same error and
    returns no result, in the world the fetch left: no request went to the
    board service and none updated a record.  The route handler answers 500
    and the scheduled callback returns; neither throws, whatever the world
    they run in. *)
Theorem sync_fetch_failure (w w0 : World) (e : exn) :
  zohoService.getEligibleDeals w = (Throw e, w0) →
  syncDealsToTrello w = (Throw e, w0)
  ∧ (∃ t, trace w0 = trace w ++ t ∧ Forall (λ x, ¬ is_write x) t)
  ∧ server.post_sync w
    = (Ok {| server.code := 500; server.body := server.SyncFailed |}, w0)
  ∧ server.scheduled_sync w = (Ok tt, w0)
  ∧ (∀ w1, ∃ reply w1', server.post_sync w1 = (Ok reply, w1'))
  ∧ (∀ w1, ∃ w1', server.scheduled_sync w1 = (Ok tt, w1')).
Proof.
  intros H.
  assert (syncDealsToTrello w = (Throw e, w0)) as Hsync
    by by rewrite syncDealsToTrello_eq, H.
  split_and!.
  - done.
  - by apply getEligibleDeals_reads in H as [_ ?].
  - unfold server.post_sync, try_catch, bindM. by rewrite Hsync.
  - unfold server.scheduled_sync, try_catch, bindM. by rewrite Hsync.
  - intros w1. unfold server.post_sync, try_catch, bindM, ret.
    destruct (syncDealsToTrello w1) as [[r|e1] w1']; eauto.
  - intros w1. unfold server.scheduled_sync, try_catch, bindM, ret.
    destruct (syncDealsToTrello w1) as [[r|e1] w1']; eauto.
Qed.

(** The theorem at a CRM that answers the search with 500. *)
Lemma sync_fetch_failure_witness :
  let w := scenario.world [inr (scenario.rejected 500)] in
  (syncDealsToTrello w).1 = Throw (AxiosError (scenario.rejected 500))
  ∧ (server.post_sync w).1
    = Ok {| server.code := 500; server.body := server.SyncFailed |}
  ∧ (server.scheduled_sync w).1 = Ok tt.
Proof.
  intros w.
  assert (zohoService.getEligibleDeals w
          = (Throw (AxiosError (scenario.rejected 500)),
             (zohoService.getEligibleDeals w).2)) as H
    by (apply threw; by vm_compute).
  destruct (sync_fetch_failure _ _ _ H) as (-> & _ & -> & -> & _).
  done.
Defined.




(** The response to an update reports no success when its data array is
    missing or empty. *)
Lemma no_success_without_data :
  ¬ reports_success (obj []) ∧ ¬ reports_success (obj [("data", JArr [])]).
Proof.
  split; intros H%update_failed_false; by vm_compute in H.
Qed.

(** C5. The board of a record has been created and the CRM answers the
    update of the record with a response that reports no explicit success
    for the record (its data array may be missing or empty):
    [updateDealWithBoardId] throws, and the body of the loop records an
    error for the record, with the message of what was thrown, and counts no
    creation.  Unless the response is [undefined] or [null], what is thrown
    is the error "Failed to update deal ... in Zoho". *)
Theorem write_back_failure_is_an_error
    (m : gmap jstring jsval) (results : SyncResult) (w w1 w2 : World)
    (pb : ProjectBoard) (board_id response : jsval) :
  blank (field m "Project_Board_ID_c") = true →
  validateDeal (JObj m) = Ok true →
  trelloService.createProjectBoard (field m "Deal_Name") (field m "id") w
  = (Ok pb, w1) →
  getprop (board pb) "id" = Ok board_id →
  zohoService.makeRequest (u "/Deals/" ++ text (field m "id")) (u "PUT")
    (zohoService.updateData (field m "id") board_id) w1
  = (Ok response, w2) →
  ¬ reports_success response →
  ∃ e,
    zohoService.updateDealWithBoardId (field m "id") board_id w1
    = (Throw e, w2)
    ∧ sync_deal (JObj m) results w
      = (Ok {| processed := processed results;
               created := created results;
               errors := S (errors results);
               details :=
                 details results
                 ++ [ {| dealId := field m "id";
                         dealName := field m "Deal_Name";
                         status := u "error";
                         detail_message := message e |} ] |},
         w2)
    ∧ (response ≠ JUndefined → response ≠ JNull →
       e = Error (u "Failed to update deal " ++ text (field m "id")
                  ++ u " in Zoho. See logs for details.")).
Proof.
  intros Hblank Hvalid Hboard Hid Hput Hno.
  destruct (createProjectBoard_inv_ok _ _ _ _ _ Hboard)
    as (b & ? & ? & ? & ? & ? & ? & bid & ? & Hb & _
        & (Hn & Hi & Hbc & _) & _ & _ & Hpb).
  assert (∃ e, update_outcome (field m "id") board_id response = Throw e
               ∧ (response ≠ JUndefined → response ≠ JNull →
                  e = Error (u "Failed to update deal "
                             ++ text (field m "id")
                             ++ u " in Zoho. See logs for details.")))
    as (e & He & Hmsg).
  { unfold update_outcome.
    destruct (zohoService.update_failed response) as [[]|e] eqn:Hf;
      cbn [bindR].
    - by eexists.
    - by apply update_failed_false in Hf.
    - exists e. split; [done|]. intros H1 H2.
      destruct (update_failed_total response H1 H2) as [b' Hb']. congruence. }
  assert (zohoService.updateDealWithBoardId (field m "id") board_id w1
          = (Throw e, w2)) as Hupdate.
  { by rewrite updateDealWithBoardId_eq, Hi, Hput, <- He. }
  exists e. split_and!; [done| |done].
  rewrite sync_deal_eq by by apply has_board_id_blank.
  by rewrite processDeal_eq, Hn, Hi, Hvalid, Hboard, Hid, Hupdate.
Qed.

(** The theorem at the record D3, when the CRM answers the update with an
    empty data array. *)
Lemma write_back_failure_is_an_error_witness :
  let w := scenario.world
             (scenario.board_answers ++ [inl (obj [("data", JArr [])])]) in
  (sync_deal scenario.deal3
     {| processed := 1; created := 0; errors := 0; details := [] |} w).1
  = Ok {| processed := 1; created := 0; errors := 1;
          details :=
            [ error_detail (JStr (u "D3")) (JStr (u "Initech"))
                (Error (u "Failed to update deal D3 in Zoho. "
                        ++ u "See logs for details.")) ] |}.
Proof.
  intros w.
  pose (r1 := trelloService.createProjectBoard
                (JStr (u "Initech")) (JStr (u "D3")) w).
  pose (r2 := zohoService.makeRequest (u "/Deals/D3") (u "PUT")
                (zohoService.updateData (JStr (u "D3")) (JStr (u "B1")))
                r1.2).
  pose (m := scenario.props scenario.deal3).
  pose (pb := scenario.value scenario.no_board r1.1).
  assert (blank (field m "Project_Board_ID_c") = true) as H1
    by by vm_compute.
  assert (validateDeal (JObj m) = Ok true) as H2 by by vm_compute.
  assert (trelloService.createProjectBoard
            (field m "Deal_Name") (field m "id") w = (Ok pb, r1.2)) as H3
    by (apply returned; by vm_compute).
  assert (getprop (board pb) "id" = Ok (JStr (u "B1"))) as H4
    by by vm_compute.
  assert (zohoService.makeRequest (u "/Deals/" ++ text (field m "id"))
            (u "PUT") (zohoService.updateData (field m "id") (JStr (u "B1")))
            r1.2
          = (Ok (obj [("data", JArr [])]), r2.2)) as H5
    by (apply returned; by vm_compute).
  destruct (write_back_failure_is_an_error m
              {| processed := 1; created := 0; errors := 0; details := [] |}
              w r1.2 r2.2 pb (JStr (u "B1")) (obj [("data", JArr [])])
              H1 H2 H3 H4 H5 (proj2 no_success_without_data))
    as (e & _ & Hsync & He).
  change scenario.deal3 with (JObj m).
  rewrite Hsync, He by done. reflexivity.
Defined.

End sync_facts.


(** * Further properties: strings and the logger *)

Section string_facts.

Lemma dropWhile_nil {A} (p : A → bool) (l : list A) :
  dropWhile p l = [] ↔ Forall (λ x, p x = true) l.
Proof.
  induction l as [|x l IH]; cbn; [split; by auto|].
  destruct (p x) eqn:Hx.
  - rewrite IH, Forall_cons. tauto.
  - split; [done|]. intros [? _]%Forall_cons. congruence.
Qed.

(** What [dropWhile] leaves starts with an element that fails the test. *)
Lemma dropWhile_head {A} (p : A → bool) (l : list A) x l' :
  dropWhile p l = x :: l' → p x = false.
Proof.
  induction l as [|y l IH]; cbn; [done|].
  destruct (p y) eqn:Hy; [done|]. by intros [= <- _].
Qed.

Lemma dropWhile_idemp {A} (p : A → bool) (l : list A) :
  dropWhile p (dropWhile p l) = dropWhile p l.
Proof.
  destruct (dropWhile p l) as [|x l'] eqn:E; [done|].
  apply dropWhile_head in E. cbn. by rewrite E.
Qed.

(** A string trims to the empty string exactly when it consists of
    whitespace only. *)
Lemma trim_nil (s : jstring) :
  trim s = [] ↔ Forall (λ c, is_ws c = true) s.
Proof.
  unfold trim, trimEnd, trimStart.
  rewrite <- (dropWhile_nil is_ws s).
  split.
  - intros H. apply (f_equal length) in H.
    rewrite length_reverse in H. apply nil_length_inv in H.
    apply dropWhile_nil in H. rewrite Forall_reverse in H.
    apply dropWhile_nil in H. by rewrite dropWhile_idemp in H.
  - intros ->. reflexivity.
Qed.

Lemma starts_with_spec (s t : jstring) :
  starts_with s t = true ↔ ∃ b, s = t ++ b.
Proof.
  revert s. induction t as [|c t IH]; intros s.
  - split; [by exists s|intros _; by destruct s].
  - destruct s as [|d s]; simpl; [split; [done|by intros [? ?]]|].
    split.
    + intros [Hc Ht]%andb_true_iff.
      apply bool_decide_eq_true in Hc as ->.
      apply IH in Ht as [b ->]. by exists b.
    + intros [b [= -> ->]]. apply andb_true_iff.
      split; [by apply bool_decide_eq_true|]. apply IH. eauto.
Qed.

(** [s.includes(t)] holds exactly when [t] occurs in [s]. *)
Lemma includes_spec (s t : jstring) :
  includes s t = true ↔ ∃ a b, s = a ++ t ++ b.
Proof.
  induction s as [|d s IH]; cbn [includes];
    rewrite orb_true_iff, starts_with_spec.
  - split.
    + intros [[b Hb]|?]; [|done]. exists [], b. done.
    + intros (a & b & H). left.
      destruct a; [by exists b|done].
  - rewrite IH. split.
    + intros [[b Hb]|(a & b & ->)]; [by exists [], b|].
      by exists (d :: a), b.
    + intros ([|d' a] & b & H); [left; by exists b|].
      right. injection H as -> ->. eauto.
Qed.

End string_facts.

Section guard_facts.
Import integrationService.

Lemma trim_nil_forallb (s : jstring) :
  bool_decide (trim s = []) = forallb is_ws s.
Proof.
  apply eq_true_iff_eq. rewrite bool_decide_eq_true, trim_nil.
  rewrite forallb_forall, Forall_forall. setoid_rewrite list_elem_of_In.
  done.
Qed.

(** X1. A record with a string name passes [validateDeal] exactly when its
    stage and type are the expected ones and its name has a character that
    is not whitespace: spaces, tabs and line ends alone are no name.  A
    record that does not pass is refused once its id has been converted to
    a string for the warning. *)
Theorem validateDeal_whitespace_name (m : gmap jstring jsval) (s : jstring) :
  field m "Deal_Name" = JStr s →
  validateDeal (JObj m)
  = if strict_eq_str (field m "Stage") (u "Project Kickoff")
       && strict_eq_str (field m "Type") (u "New Implementation Project")
       && negb (forallb is_ws s)
    then Ok true
    else _ <~ tpl (field m "id");; Ok false.
Proof.
  intros E. rewrite validateDeal_text by by rewrite E.
  rewrite E. cbn [nonblank]. by rewrite trim_nil_forallb.
Qed.

Lemma validateDeal_whitespace_name_witness :
  validateDeal
    (obj [("Deal_Name", JStr [32; 9; 10; 160]%N);
          ("Stage", JStr (u "Project Kickoff"));
          ("Type", JStr (u "New Implementation Project"))])
  = Ok false.
Proof.
  etrans.
  - exact (validateDeal_whitespace_name
             (scenario.props
                (obj [("Deal_Name", JStr [32; 9; 10; 160]%N);
                      ("Stage", JStr (u "Project Kickoff"));
                      ("Type", JStr (u "New Implementation Project"))]))
             [32; 9; 10; 160]%N eq_refl).
  - by vm_compute.
Defined.

(** X2. The guard at the head of the loop takes a string board reference
    as set exactly when it has a character that is not whitespace: a
    reference of spaces only does not keep a record from being processed. *)
Theorem has_board_id_whitespace (m : gmap jstring jsval) (s : jstring) :
  field m "Project_Board_ID_c" = JStr s →
  has_board_id (JObj m) = Ok (negb (forallb is_ws s)).
Proof.
  intros E. rewrite has_board_id_text by by rewrite E.
  rewrite E. cbn [nonblank]. by rewrite trim_nil_forallb.
Qed.

Lemma has_board_id_whitespace_witness :
  has_board_id (obj [("Project_Board_ID_c", JStr [32; 32]%N)]) = Ok false.
Proof.
  exact (has_board_id_whitespace
           (scenario.props (obj [("Project_Board_ID_c", JStr [32; 32]%N)]))
           [32; 32]%N eq_refl).
Defined.

End guard_facts.

Section logger_facts.
Import logger.

Lemma level_member (k : jstring) (a : Z) :
  level k = Some a ↔ member_of k = Level a.
Proof. unfold level. destruct (member_of k); naive_solver. Qed.

Lemma level_find (k : jstring) :
  level k = snd <$> find (λ x, bool_decide (u x.1 = k)) logLevels.
Proof.
  unfold level, member_of. destruct (find _ logLevels) as [x|]; [done|].
  destruct (find _ inherited); [done|]. by case_bool_decide.
Qed.

Lemma level_cases (k : jstring) :
  k = u "error" ∧ level k = Some 0%Z
  ∨ k = u "warn" ∧ level k = Some 1%Z
  ∨ k = u "info" ∧ level k = Some 2%Z
  ∨ k = u "debug" ∧ level k = Some 3%Z
  ∨ (k ∉ [u "error"; u "warn"; u "info"; u "debug"]) ∧ level k = None.
Proof.
  rewrite level_find. unfold logLevels. cbn [find fst].
  case_bool_decide as H1; [left; by subst|].
  case_bool_decide as H2; [right; left; by subst|].
  case_bool_decide as H3; [right; right; left; by subst|].
  case_bool_decide as H4; [right; right; right; left; by subst|].
  right; right; right; right. split; [|done].
  rewrite !elem_of_cons, elem_of_nil. naive_solver.
Qed.

Lemma level_range (k : jstring) (a : Z) : level k = Some a → (0 ≤ a ≤ 3)%Z.
Proof.
  destruct (level_cases k) as [[_ ->]|[[_ ->]|[[_ ->]|[[_ ->]|[_ ->]]]]];
    intros [= <-]; lia.
Qed.

Lemma level_known (k : jstring) :
  is_Some (level k) ↔ k ∈ [u "error"; u "warn"; u "info"; u "debug"].
Proof.
  rewrite !elem_of_cons, elem_of_nil.
  destruct (level_cases k) as [[-> ->]|[[-> ->]|[[-> ->]|[[-> ->]|[H ->]]]]];
    try (split; [by auto 6|by eexists]).
  rewrite !elem_of_cons, elem_of_nil in H.
  split; [by intros [? ?]|done].
Qed.

(** A level is at most a number only. *)
Lemma le_level (a : member) (b : Z) :
  le a (Level b) = true ↔ ∃ x, a = Level x ∧ (x ≤ b)%Z.
Proof.
  destruct a as [x|name| |]; cbn; split; try done.
  - intros H%Z.leb_le. eauto.
  - intros (y & [= <-] & H). by apply Z.leb_le.
  - by intros (? & ? & _).
  - by intros (? & ? & _).
  - by intros (? & ? & _).
Qed.

(** X3. When the configured level is one of the four, errors are always
    logged, and what is logged at a level is logged at every more verbose
    one. *)
Theorem shouldLog_monotone (L : jstring) (lL : Z) :
  level L = Some lL →
  shouldLog L (JStr (u "error")) = Ok true
  ∧ ∀ L' lL' n,
      level L' = Some lL' → (lL ≤ lL')%Z →
      shouldLog L n = Ok true → shouldLog L' n = Ok true.
Proof.
  intros HL. pose proof (level_range _ _ HL) as Hr.
  apply level_member in HL. split.
  - unfold shouldLog. cbn [tpl bindR]. rewrite HL.
    change (member_of (u "error")) with (Level 0). f_equal.
    apply le_level. exists 0%Z. split; [done|lia].
  - intros L' lL' n HL'%level_member Hle. unfold shouldLog.
    destruct (tpl n) as [k|e]; cbn [bindR]; [|done].
    rewrite HL, HL'. intros [= (x & -> & Hx)%le_level]. f_equal.
    apply le_level. exists x. split; [done|lia].
Qed.

Lemma shouldLog_monotone_witness :
  shouldLog (u "warn") (JStr (u "error")) = Ok true.
Proof.
  exact (proj1 (shouldLog_monotone (u "warn") 1 eq_refl)).
Defined.

(** X4. When LOG_LEVEL is set to a name that is not exactly one of error,
    warn, info and debug, no message of these four levels is logged, errors
    included: the methods [error], [warn], [info] and [debug] of the logger
    write nothing. *)
Theorem unknown_LOG_LEVEL_silences_logger (env : env_var) (n : jstring) :
  logLevel env ∉ [u "error"; u "warn"; u "info"; u "debug"] →
  n ∈ [u "error"; u "warn"; u "info"; u "debug"] →
  shouldLog (logLevel env) (JStr n) = Ok false.
Proof.
  intros HL Hn. unfold shouldLog. cbn [tpl bindR]. f_equal.
  apply level_known in Hn as [a Ha%level_member]. rewrite Ha.
  destruct (member_of (logLevel env)) as [b| | |] eqn:Hb; try done.
  exfalso. apply HL, level_known. exists b. by apply level_member.
Qed.

Lemma unknown_LOG_LEVEL_silences_logger_witness :
  shouldLog (logLevel (Set_to (u "INFO"))) (JStr (u "error")) = Ok false.
Proof.
  apply unknown_LOG_LEVEL_silences_logger.
  - rewrite !elem_of_cons, elem_of_nil.
    by vm_compute; intros [?|[?|[?|[?|[]]]]].
  - rewrite !elem_of_cons. by left.
Defined.

(** A name that is no level finds a member of [Object.prototype]: with
    LOG_LEVEL set to the name of such a member, a message under that name
    would pass, the two functions being compared as texts. *)
Example inherited_names_compare_as_texts :
  shouldLog (logLevel (Set_to (u "constructor"))) (JStr (u "constructor"))
  = Ok true
  ∧ shouldLog (logLevel (Set_to (u "toString"))) (JStr (u "__proto__"))
    = Ok true
  ∧ shouldLog (logLevel (Set_to (u "constructor"))) (JStr (u "error"))
    = Ok false.
Proof. by vm_compute. Qed.

(** X5. When LOG_LEVEL is not set, or empty, the level is info: messages of
    the levels error, warn and info are logged, and no other. *)
Theorem default_level_is_info (env : env_var) (n : jsval) :
  truthy env = false →
  shouldLog (logLevel env) n
  = (key <~ tpl n;;
     Ok (bool_decide (key ∈ [u "error"; u "warn"; u "info"]))).
Proof.
  intros H. unfold logLevel. rewrite H. unfold shouldLog.
  destruct (tpl n) as [k|e]; cbn [bindR]; [|done]. f_equal.
  change (member_of (u "info")) with (Level 2).
  apply eq_true_iff_eq. rewrite le_level, bool_decide_eq_true.
  setoid_rewrite <- level_member.
  rewrite !elem_of_cons, elem_of_nil.
  destruct (level_cases k) as [[-> ->]|[[-> ->]|[[-> ->]|[[E ->]|[E ->]]]]].
  - split; [by auto|]. intros _. exists 0%Z. split; [done|lia].
  - split; [by auto|]. intros _. exists 1%Z. split; [done|lia].
  - split; [by auto|]. intros _. exists 2%Z. split; [done|lia].
  - subst k. split.
    + intros (x & [= <-] & Hx). lia.
    + by vm_compute; intros [?|[?|[?|[]]]].
  - rewrite !elem_of_cons, elem_of_nil in E. split.
    + by intros (x & ? & _).
    + naive_solver.
Qed.

Lemma default_level_is_info_witness :
  shouldLog (logLevel Unset) (JStr (u "debug")) = Ok false
  ∧ shouldLog (logLevel (Set_to [])) (JStr (u "warn")) = Ok true.
Proof.
  split.
  - by rewrite (default_level_is_info Unset (JStr (u "debug")) eq_refl).
  - by rewrite (default_level_is_info (Set_to []) (JStr (u "warn")) eq_refl).
Defined.

End logger_facts.


(** * Further properties of the Zoho client *)

Section zoho_more.
Import zohoService.

(** [exchangeCodeForTokens], from the answer of the OAuth server. *)
Lemma exchangeCodeForTokens_eq code w r rm :
  respond (remote w) (code_request (zoho w) code) = (r, rm) →
  exchangeCodeForTokens code w
  = match r with
    | inl d =>
        match getprop d "access_token", getprop d "refresh_token" with
        | Ok a, Ok b =>
            (Ok {| access_token := a; refresh_token := b |},
             with_zoho (issued w ZohoAccounts [code_request (zoho w) code] rm)
               (with_refreshToken (with_accessToken (zoho w) a) b))
        | _, _ =>
            (Throw (Error (u "Failed to exchange authorization code")),
             issued w ZohoAccounts [code_request (zoho w) code] rm)
        end
    | inr _ =>
        (Throw (Error (u "Failed to exchange authorization code")),
         issued w ZohoAccounts [code_request (zoho w) code] rm)
    end.
Proof.
  intros H. unfold exchangeCodeForTokens, try_catch, bindM, get_zoho.
  rewrite (axios_eq _ _ _ _ _ H).
  destruct r as [d|e]; cbn [settle]; [|done].
  unfold pure.
  destruct (getprop d "access_token") as [a|]; [|done].
  destruct (getprop d "refresh_token") as [b|]; done.
Qed.

(** X6. When the OAuth server answers the exchange with an object, both
    tokens of the client become the properties [access_token] and
    [refresh_token] of the answer ([undefined] for a missing one), the other
    fields of the client stay, one request was issued, and every later
    request to the CRM carries the new access token. *)
Theorem exchangeCodeForTokens_sets_tokens
    (code : jsval) (w : World) (d : jsval) (rm : Remote) (a b : jsval) :
  respond (remote w) (code_request (zoho w) code) = (inl d, rm) →
  getprop d "access_token" = Ok a →
  getprop d "refresh_token" = Ok b →
  ∃ w',
    exchangeCodeForTokens code w
    = (Ok {| access_token := a; refresh_token := b |}, w')
    ∧ accessToken (zoho w') = a ∧ refreshToken (zoho w') = b
    ∧ clientId (zoho w') = clientId (zoho w)
    ∧ clientSecret (zoho w') = clientSecret (zoho w)
    ∧ zoho_baseUrl (zoho w') = zoho_baseUrl (zoho w)
    ∧ trace w' = trace w ++ [(ZohoAccounts, code_request (zoho w) code)]
    ∧ ∀ endpoint verb payload,
        match request_config (zoho w') endpoint verb payload with
        | Ok c =>
            headers c !! u "Authorization"
            = Some (u "Zoho-oauthtoken " ++ text a)
        | Throw _ => converts a = false
        end.
Proof.
  intros H Ha Hb. rewrite (exchangeCodeForTokens_eq _ _ _ _ H), Ha, Hb.
  eexists. split; [reflexivity|]. split_and!; try reflexivity.
  intros endpoint verb payload. rewrite request_config_eq.
  cbn [zoho with_zoho accessToken with_refreshToken with_accessToken].
  by destruct (converts a) eqn:Hc.
Qed.

Lemma exchangeCodeForTokens_sets_tokens_witness :
  let w := scenario.world
             [inl (obj [("access_token", JStr (u "A"));
                        ("refresh_token", JStr (u "R"))])] in
  ∃ w', exchangeCodeForTokens (JStr (u "code")) w
        = (Ok {| access_token := JStr (u "A");
                 refresh_token := JStr (u "R") |}, w')
        ∧ accessToken (zoho w') = JStr (u "A")
        ∧ refreshToken (zoho w') = JStr (u "R").
Proof.
  intros w.
  destruct (exchangeCodeForTokens_sets_tokens (JStr (u "code")) w
              (obj [("access_token", JStr (u "A"));
                    ("refresh_token", JStr (u "R"))])
              (scenario.scripted []) (JStr (u "A")) (JStr (u "R"))
              eq_refl eq_refl eq_refl)
    as (w' & H & Ha & Hr & _).
  by exists w'.
Defined.

(** X7. Whatever makes the exchange fail, the caller gets the one error
    "Failed to exchange authorization code", the tokens and the other fields
    of the client are as before, and one request was issued. *)
Theorem exchangeCodeForTokens_failure
    (code : jsval) (w w' : World) (e : exn) :
  exchangeCodeForTokens code w = (Throw e, w') →
  e = Error (u "Failed to exchange authorization code")
  ∧ zoho w' = zoho w
  ∧ trace w' = trace w ++ [(ZohoAccounts, code_request (zoho w) code)].
Proof.
  destruct (respond (remote w) (code_request (zoho w) code)) as [r rm] eqn:H.
  rewrite (exchangeCodeForTokens_eq _ _ _ _ H).
  destruct r as [d|e0].
  - destruct (getprop d "access_token"), (getprop d "refresh_token");
      intros [= <- <-]; done.
  - by intros [= <- <-].
Qed.

Lemma exchangeCodeForTokens_failure_witness :
  let w := scenario.world [inl JNull] in
  (exchangeCodeForTokens (JStr (u "code")) w).1
  = Throw (Error (u "Failed to exchange authorization code"))
  ∧ zoho (exchangeCodeForTokens (JStr (u "code")) w).2 = scenario.zoho0.
Proof.
  intros w.
  assert (exchangeCodeForTokens (JStr (u "code")) w
          = (Throw (scenario.thrown
                      (exchangeCodeForTokens (JStr (u "code")) w).1),
             (exchangeCodeForTokens (JStr (u "code")) w).2)) as H
    by (apply threw; by vm_compute).
  destruct (exchangeCodeForTokens_failure _ _ _ _ H) as (He & Hz & _).
  split; [|exact Hz]. rewrite H at 1. cbn [fst]. by rewrite He.
Defined.

(** X8. A token refresh changes nothing but the access token, and that only
    when it returns: then the access token is what it returned.  When it
    fails, for whatever reason, the error is "Failed to refresh access
    token" and the client is as before. *)
Theorem refreshAccessToken_effect (w w' : World) (r : result jsval) :
  refreshAccessToken w = (r, w') →
  trello w' = trello w
  ∧ refreshToken (zoho w') = refreshToken (zoho w)
  ∧ clientId (zoho w') = clientId (zoho w)
  ∧ clientSecret (zoho w') = clientSecret (zoho w)
  ∧ zoho_baseUrl (zoho w') = zoho_baseUrl (zoho w)
  ∧ trace w' = trace w ++ [(ZohoAccounts, token_request (zoho w))]
  ∧ match r with
    | Ok tok => accessToken (zoho w') = tok
    | Throw e =>
        e = Error (u "Failed to refresh access token") ∧ zoho w' = zoho w
    end.
Proof.
  destruct (respond (remote w) (token_request (zoho w))) as [r0 rm] eqn:H.
  rewrite (refreshAccessToken_eq _ _ _ H).
  destruct (granted r0); intros [= <- <-]; done.
Qed.

Lemma refreshAccessToken_effect_witness :
  let w := scenario.world [inl (obj [("access_token", JStr (u "fresh"))])] in
  accessToken (zoho (refreshAccessToken w).2) = JStr (u "fresh")
  ∧ refreshToken (zoho (refreshAccessToken w).2) = JStr (u "refresh").
Proof.
  intros w.
  assert (refreshAccessToken w
          = (Ok (JStr (u "fresh")), (refreshAccessToken w).2)) as H
    by (apply returned; by vm_compute).
  destruct (refreshAccessToken_effect _ _ _ H) as (_ & Hr & _ & _ & _ & _ & Ha).
  split; [exact Ha|exact Hr].
Defined.

(** X9. When the OAuth server answers a refresh with an object that has no
    [access_token] (an error report sent with status 200, say), the refresh
    returns as if it had worked: the access token becomes [undefined] and
    later requests carry the header "Zoho-oauthtoken undefined". *)
Theorem refresh_without_token_goes_unnoticed
    (w : World) (d : gmap jstring jsval) (rm : Remote) :
  respond (remote w) (token_request (zoho w)) = (inl (JObj d), rm) →
  d !! u "access_token" = None →
  ∃ w',
    refreshAccessToken w = (Ok JUndefined, w')
    ∧ accessToken (zoho w') = JUndefined
    ∧ ∀ endpoint verb payload,
        ∃ c, request_config (zoho w') endpoint verb payload = Ok c
             ∧ headers c !! u "Authorization"
               = Some (u "Zoho-oauthtoken undefined").
Proof.
  intros H Hd. rewrite (refreshAccessToken_eq _ _ _ H).
  cbn [granted getprop]. unfold field. rewrite Hd. cbn [default].
  eexists. split_and!; try reflexivity.
  intros endpoint verb payload. by eexists.
Qed.

Lemma refresh_without_token_goes_unnoticed_witness :
  let w := scenario.world [inl (obj [("error", JStr (u "invalid_code"))])] in
  (refreshAccessToken w).1 = Ok JUndefined.
Proof.
  intros w.
  destruct (refresh_without_token_goes_unnoticed w
              (scenario.props (obj [("error", JStr (u "invalid_code"))]))
              (scenario.scripted []) eq_refl eq_refl) as (w' & -> & _).
  reflexivity.
Defined.

(** X10. [checkConnection] never throws: it reports "connected" exactly
    when its request to the CRM returned, and otherwise "error" with the
    message of the failure. *)
Theorem zoho_checkConnection_never_throws (w : World) :
  ∃ c w',
    checkConnection w = (Ok c, w')
    ∧ (Connection.status c = u "connected"
       ↔ ∃ b, makeRequest (u "/org") (u "GET") JNull w = (Ok b, w'))
    ∧ (Connection.status c ≠ u "connected" →
       Connection.status c = u "error"
       ∧ ∃ e, makeRequest (u "/org") (u "GET") JNull w = (Throw e, w')
              ∧ Connection.message c = message e).
Proof.
  unfold checkConnection, try_catch, bindM, ret.
  destruct (makeRequest (u "/org") (u "GET") JNull w) as [[b|e] w'].
  - eexists _, _. split; [reflexivity|]. cbn. split; [|done].
    split; eauto.
  - eexists _, _. split; [reflexivity|]. cbn. split.
    + split; [by vm_compute|]. by intros [? ?].
    + eauto.
Qed.

(** The test of the handler of [createCustomField] on the error of a
    response whose first detail has the message [msg]. *)
Lemma already_exists_message e st d ds first msg :
  response e = Some (st, d) →
  getprop d "details" = Ok ds →
  getindex0 ds = Ok first →
  getprop first "message" = Ok (JStr msg) →
  already_exists (AxiosError e) = Ok (JBool (includes msg (u "already exists"))).
Proof.
  intros He Hd Hds Hf. unfold already_exists, response_data_of.
  destruct e as [resp m]; cbn in He; subst resp.
  unfold opt_prop, opt_index0.
  assert (nullish d = false) as -> by by destruct d.
  rewrite Hd. cbn [bindR].
  assert (nullish ds = false) as -> by by destruct ds.
  rewrite Hds. cbn [bindR].
  assert (nullish first = false) as -> by by destruct first.
  by rewrite Hf.
Qed.

(** X11. When the CRM rejects the creation of the custom field and the
    message of the first detail of its answer contains "already exists",
    [createCustomField] returns the object with the message "Field already
    exists" instead of throwing, and so [initializeZohoFields] returns. *)
Theorem createCustomField_already_exists
    (w w1 : World) (e : axios_error) (st : Z) (d ds first : jsval)
    (before after : jstring) :
  makeRequest (u "/settings/fields?module=Deals") (u "POST") fieldData w
  = (Throw (AxiosError e), w1) →
  response e = Some (st, d) →
  getprop d "details" = Ok ds →
  getindex0 ds = Ok first →
  getprop first "message"
  = Ok (JStr (before ++ u "already exists" ++ after)) →
  createCustomField w
  = (Ok (obj [("message", JStr (u "Field already exists"))]), w1)
  ∧ integrationService.initializeZohoFields w = (Ok tt, w1).
Proof.
  intros H He Hd Hds Hf.
  assert (createCustomField w
          = (Ok (obj [("message", JStr (u "Field already exists"))]), w1))
    as Hc.
  { unfold createCustomField, try_catch. unfold bindM at 1. rewrite H.
    unfold bindM, pure.
    rewrite (already_exists_message _ _ _ _ _ _ He Hd Hds Hf).
    assert (includes (before ++ u "already exists" ++ after)
              (u "already exists") = true) as ->
      by (apply includes_spec; eauto).
    reflexivity. }
  split; [done|].
  unfold integrationService.initializeZohoFields. rewrite try_rethrow.
  unfold bindM. by rewrite Hc.
Qed.

Lemma createCustomField_already_exists_witness :
  let w := scenario.world
             [inr {| response :=
                       Some (400%Z,
                             obj [("details",
                                   JArr [obj [("message",
                                               JStr (u "api_name already exists"))]])]);
                     ax_message := u "Request failed with status code 400" |}]
  in
  (integrationService.initializeZohoFields w).1 = Ok tt.
Proof.
  intros w.
  pose (e := {| response :=
                  Some (400%Z,
                        obj [("details",
                              JArr [obj [("message",
                                          JStr (u "api_name already exists"))]])]);
                ax_message := u "Request failed with status code 400" |}).
  assert (makeRequest (u "/settings/fields?module=Deals") (u "POST")
            fieldData w
          = (Throw (AxiosError e),
             (makeRequest (u "/settings/fields?module=Deals") (u "POST")
                fieldData w).2)) as H
    by (apply threw; by vm_compute).
  destruct (createCustomField_already_exists w _ e 400
              (obj [("details",
                     JArr [obj [("message",
                                 JStr (u "api_name already exists"))]])])
              (JArr [obj [("message", JStr (u "api_name already exists"))]])
              (obj [("message", JStr (u "api_name already exists"))])
              (u "api_name ") [] H eq_refl eq_refl eq_refl eq_refl)
    as [_ ->].
  reflexivity.
Defined.

(** X12. An error that carries no response of the CRM (no answer received,
    a failed token refresh, a TypeError) is rethrown as it is by
    [createCustomField]. *)
Theorem createCustomField_rethrows (w w1 : World) (error : exn) :
  makeRequest (u "/settings/fields?module=Deals") (u "POST") fieldData w
  = (Throw error, w1) →
  response_data_of error = JUndefined →
  createCustomField w = (Throw error, w1)
  ∧ integrationService.initializeZohoFields w = (Throw error, w1).
Proof.
  intros H Hd.
  assert (createCustomField w = (Throw error, w1)) as Hc.
  { unfold createCustomField, try_catch. unfold bindM at 1. rewrite H.
    unfold bindM, pure, already_exists. by rewrite Hd. }
  split; [done|].
  unfold integrationService.initializeZohoFields. rewrite try_rethrow.
  unfold bindM. by rewrite Hc.
Qed.

Lemma createCustomField_rethrows_witness :
  let w := scenario.world [] in
  (createCustomField w).1 = Throw (AxiosError scenario.offline).
Proof.
  intros w.
  assert (makeRequest (u "/settings/fields?module=Deals") (u "POST")
            fieldData w
          = (Throw (AxiosError scenario.offline),
             (makeRequest (u "/settings/fields?module=Deals") (u "POST")
                fieldData w).2)) as H
    by (apply threw; by vm_compute).
  by destruct (createCustomField_rethrows w _ _ H eq_refl) as [-> _].
Defined.

End zoho_more.


(** * Further properties of the Trello client *)

Section trello_more.
Import trelloService.

Lemma makeRequest_throw endpoint verb payload w e rm :
  respond (remote w) (request_config (trello w) endpoint verb payload)
  = (inr e, rm) →
  makeRequest endpoint verb payload w
  = (Throw (AxiosError e),
     issued w TrelloApi [request_config (trello w) endpoint verb payload] rm).
Proof.
  intros H. unfold makeRequest. rewrite try_rethrow.
  unfold bindM, get_trello. by rewrite (axios_eq _ _ _ _ _ H).
Qed.

Lemma createBoard_throw name description w e rm :
  respond (remote w)
    (request_config (trello w) (u "/boards") (u "POST")
       (boardData name description)) = (inr e, rm) →
  createBoard name description w
  = (Throw (AxiosError e),
     issued w TrelloApi
       [request_config (trello w) (u "/boards") (u "POST")
          (boardData name description)] rm).
Proof.
  intros H. unfold createBoard. rewrite try_rethrow.
  by rewrite (bindM_throw _ _ _ _ _ (makeRequest_throw _ _ _ _ _ _ H)).
Qed.

Lemma createList_throw boardId listName position w e rm :
  respond (remote w)
    (request_config (trello w) (u "/lists") (u "POST")
       (listData boardId listName position)) = (inr e, rm) →
  createList boardId listName position w
  = (Throw (AxiosError e),
     issued w TrelloApi
       [request_config (trello w) (u "/lists") (u "POST")
          (listData boardId listName position)] rm).
Proof.
  intros H. unfold createList. rewrite try_rethrow.
  by rewrite (bindM_throw _ _ _ _ _ (makeRequest_throw _ _ _ _ _ _ H)).
Qed.

Lemma createCard_throw listId cardName description w e rm :
  respond (remote w)
    (request_config (trello w) (u "/cards") (u "POST")
       (cardData listId cardName description)) = (inr e, rm) →
  createCard listId cardName description w
  = (Throw (AxiosError e),
     issued w TrelloApi
       [request_config (trello w) (u "/cards") (u "POST")
          (cardData listId cardName description)] rm).
Proof.
  intros H. unfold createCard. rewrite try_rethrow.
  by rewrite (bindM_throw _ _ _ _ _ (makeRequest_throw _ _ _ _ _ _ H)).
Qed.

(** One step of a run of [createProjectBoard] whose answers are known. *)
Ltac board_step :=
  lazymatch goal with
  | |- bindM (bindM _ _) _ _ = _ => rewrite bindM_assoc
  | |- bindM (pure (Ok _)) _ _ = _ => rewrite bind_pure_ok
  | |- bindM (pure (Throw _)) _ _ = _ => rewrite bind_pure_throw
  | |- bindM (ret _) _ _ = _ => rewrite bind_ret
  | |- bindM (createBoard _ _) _ _ = _ =>
      first [ erewrite bindM_ok; [|by eapply createBoard_ok]
            | erewrite bindM_throw; [|by eapply createBoard_throw] ]
  | |- bindM (createList _ _ _) _ _ = _ =>
      first [ erewrite bindM_ok; [|by eapply createList_ok]
            | erewrite bindM_throw; [|by eapply createList_throw] ]
  | |- bindM (createCard _ _ _) _ _ = _ =>
      first [ erewrite bindM_ok; [|by eapply createCard_ok]
            | erewrite bindM_throw; [|by eapply createCard_throw] ]
  end.

(** [createProjectBoard] rethrows what its body throws, once its name has
    been converted for the log line. *)
Lemma createProjectBoard_rethrows dealName dealId w e w' :
  converts dealName = true →
  (boardName <- pure (boardName dealName);;
   boardDescription <- pure (boardDescription dealName dealId);;
   board <- createBoard boardName boardDescription;;
   board_id <- pure (getprop board "id");;
   todoList <- createList board_id (u "To Do") (JNum 1);;
   board_id <- pure (getprop board "id");;
   inProgressList <- createList board_id (u "In Progress") (JNum 2);;
   board_id <- pure (getprop board "id");;
   doneList <- createList board_id (u "Done") (JNum 3);;
   createdCards <-
     for_of initialCards
       (λ cardName createdCards,
          todoList_id <- pure (getprop todoList "id");;
          card <- createCard todoList_id cardName (u "");;
          ret (createdCards ++ [card]))
       [];;
   _ <- pure (tpl dealName);;
   ret {| board := board;
          lists := {| todo := todoList;
                      inProgress := inProgressList;
                      done := doneList |};
          cards := createdCards |}) w = (Throw e, w') →
  createProjectBoard dealName dealId w = (Throw e, w').
Proof.
  intros Hn H. unfold createProjectBoard, try_catch. rewrite H. by msimpl.
Qed.

(** X13. When the board service rejects one of the seven requests of
    [createProjectBoard], after answering those before it, the call throws
    the error of that request and issues no request after it: what was
    created so far stays, nothing is undone. *)
Theorem createProjectBoard_aborts
    (dealName dealId : jsval) (w : World) (k : nat) (rm rm' : Remote)
    (e : axios_error) (c : config)
    (b todoList inProgressList doneList card1 card2 card3 : jsval)
    (board_id todo_id : jsval) :
  let requests :=
    project_board_requests (trello w) dealName dealId board_id todo_id in
  let answers :=
    project_board_answers b todoList inProgressList doneList
      card1 card2 card3 in
  converts dealName = true → converts dealId = true →
  requests !! k = Some c →
  served (remote w) (take k requests) (take k answers) rm →
  respond rm c = (inr e, rm') →
  (1 ≤ k → getprop b "id" = Ok board_id ∧ converts board_id = true) →
  (4 ≤ k → getprop todoList "id" = Ok todo_id) →
  (5 ≤ k → converts todo_id = true) →
  createProjectBoard dealName dealId w
  = (Throw (AxiosError e), issued w TrelloApi (take (S k) requests) rm').
Proof.
  intros requests answers Hn Hi Hc Hs Hr Hb Ht Htc. subst requests answers.
  apply createProjectBoard_rethrows; [done|].
  rewrite boardName_eq, boardDescription_eq, Hn, Hi. cbn [andb].
  rewrite !bind_pure_ok.
  unfold initialCards. cbn [for_of].
  unfold project_board_requests in Hc.
  destruct k as [|[|[|[|[|[|[|k]]]]]]];
    cbn [lookup list_lookup] in Hc; try discriminate Hc.
  all: apply (inj Some) in Hc; subst c.
  all: cbn [take served project_board_requests project_board_answers] in Hs.
  all: first [destruct (Hb ltac:(lia)) as [Hb' Hbc]; clear Hb | clear Hb].
  all: first [specialize (Ht ltac:(lia)) | clear Ht].
  all: first [specialize (Htc ltac:(lia)) | clear Htc].
  all: repeat match type of Hs with
       | ∃ _, _ => let rm1 := fresh "rm" in let R := fresh "R" in
                   destruct Hs as (rm1 & R & Hs)
       end.
  all: subst rm.
  all: repeat (first [rewrite Hb' | rewrite Ht | board_step]).
  all: unfold issued; cbn [take fmap list_fmap trace zoho trello remote];
    repeat (f_equal; []); rewrite <- ?List.app_assoc; reflexivity.
Qed.

Lemma createProjectBoard_aborts_witness :
  let w := scenario.world
             [inl (scenario.with_id "B1"); inr (scenario.rejected 500)] in
  ∃ w', createProjectBoard (JStr (u "Initech")) (JStr (u "D3")) w
        = (Throw (AxiosError (scenario.rejected 500)), w')
        ∧ length (trace w') = 2.
Proof.
  intros w. eexists. split.
  - eapply (createProjectBoard_aborts _ _ w 1
              (scenario.scripted [inr (scenario.rejected 500)])
              (scenario.scripted []) (scenario.rejected 500) _
              (scenario.with_id "B1") JNull JNull JNull JNull JNull JNull
              (JStr (u "B1")) JNull).
    + reflexivity.
    + reflexivity.
    + reflexivity.
    + cbn [take served project_board_requests project_board_answers].
      eexists. split; reflexivity.
    + reflexivity.
    + by split.
    + lia.
    + lia.
  - reflexivity.
Defined.

(** X14. When the board service answers the creation of the list To Do with
    [null] or [undefined], [createProjectBoard] notices only after it has
    created the three lists: it throws a TypeError after four requests, and
    no card is requested.  The name and the id of the record, and the id of
    the board, are values that convert to strings. *)
Theorem createProjectBoard_list_without_id
    (dealName dealId : jsval) (w : World) (rm : Remote)
    (b todoList inProgressList doneList board_id : jsval) :
  converts dealName = true → converts dealId = true →
  getprop b "id" = Ok board_id → converts board_id = true →
  nullish todoList = true →
  served (remote w)
    (take 4 (project_board_requests (trello w) dealName dealId board_id
               JUndefined))
    [b; todoList; inProgressList; doneList] rm →
  createProjectBoard dealName dealId w
  = (Throw (cannot_read todoList (u "id")),
     issued w TrelloApi
       (take 4 (project_board_requests (trello w) dealName dealId board_id
                  JUndefined)) rm).
Proof.
  intros Hn Hi Hb Hbc Hnull Hs.
  cbn [take served project_board_requests] in Hs.
  destruct Hs as (rm1 & R1 & rm2 & R2 & rm3 & R3 & rm4 & R4 & ->).
  apply createProjectBoard_rethrows; [done|].
  rewrite boardName_eq, boardDescription_eq, Hn, Hi. cbn [andb].
  rewrite !bind_pure_ok.
  unfold initialCards. cbn [for_of].
  repeat (first [rewrite Hb | board_step]).
  assert (getprop todoList "id" = Throw (cannot_read todoList (u "id"))) as Ht
    by by destruct todoList.
  rewrite Ht. unfold bindM at 1. unfold pure at 1.
  unfold issued; cbn [take fmap list_fmap trace zoho trello remote].
  repeat (f_equal; []). rewrite <- ?List.app_assoc. reflexivity.
Qed.

Lemma createProjectBoard_list_without_id_witness :
  let w := scenario.world
             (inl <$> [scenario.with_id "B1"; JNull;
                       scenario.with_id "L2"; scenario.with_id "L3"]) in
  ∃ w', createProjectBoard (JStr (u "Initech")) (JStr (u "D3")) w
        = (Throw (cannot_read JNull (u "id")), w')
        ∧ length (trace w') = 4.
Proof.
  intros w. eexists. split.
  - eapply (createProjectBoard_list_without_id _ _ w (scenario.scripted [])
              (scenario.with_id "B1") JNull (scenario.with_id "L2")
              (scenario.with_id "L3") (JStr (u "B1"))).
    + reflexivity.
    + reflexivity.
    + reflexivity.
    + reflexivity.
    + reflexivity.
    + cbn [take served project_board_requests].
      repeat (eexists; split; [reflexivity|]). reflexivity.
  - reflexivity.
Defined.

(** X15. [checkConnection] of the Trello client never throws and issues
    exactly one request, a [GET] of the member with the key and the token; it
    reports "connected" exactly when the request is answered. *)
Theorem trello_checkConnection_never_throws (w : World) :
  let c0 :=
    {| method := u "GET";
       url := env_text (trello_baseUrl (trello w)) ++ u "/members/me";
       headers := ∅;
       params := list_to_map [(u "key", of_env (apiKey (trello w)));
                              (u "token", of_env (token (trello w)))];
       data := JUndefined |} in
  ∃ c rm,
    checkConnection w = (Ok c, issued w TrelloApi [c0] rm)
    ∧ (Connection.status c = u "connected"
       ↔ ∃ b, respond (remote w) c0 = (inl b, rm))
    ∧ (Connection.status c ≠ u "connected" →
       Connection.status c = u "error"
       ∧ ∃ e, respond (remote w) c0 = (inr e, rm)
              ∧ Connection.message c = ax_message e).
Proof.
  intros c0.
  assert (c0 = request_config (trello w) (u "/members/me") (u "GET") JNull)
    as Hc0 by reflexivity.
  destruct (respond (remote w) c0) as [[b|e] rm] eqn:H; rewrite Hc0 in H.
  - eexists _, rm. unfold checkConnection, try_catch, bindM.
    rewrite (makeRequest_ok _ _ _ _ _ _ H).
    split; [reflexivity|]. cbn. split; [|done]. split; eauto.
  - eexists _, rm. unfold checkConnection, try_catch, bindM.
    rewrite (makeRequest_throw _ _ _ _ _ _ H).
    split; [reflexivity|]. cbn. split.
    + split; [by vm_compute|]. by intros [? ?].
    + eauto.
Qed.

End trello_more.


(** * Properties of a whole run of the synchronizer *)

Lemma issues_quiet {A} P (m : M A) :
  (∀ w, (m w).2 = w) → issues P m.
Proof.
  intros H w r w' E. exists []. rewrite app_nil_r.
  specialize (H w). rewrite E in H. cbn in H. by subst.
Qed.

Lemma issues_ret {A} P (a : A) : issues P (ret a).
Proof. by apply issues_quiet. Qed.

Lemma issues_throw {A} P e : issues P (@throw A e).
Proof. by apply issues_quiet. Qed.

Lemma issues_pure {A} P (x : result A) : issues P (pure x).
Proof. by apply issues_quiet. Qed.

Lemma issues_get_zoho P : issues P get_zoho.
Proof. by apply issues_quiet. Qed.

Lemma issues_get_trello P : issues P get_trello.
Proof. by apply issues_quiet. Qed.

Lemma issues_set_accessToken P v : issues P (set_accessToken v).
Proof.
  intros w r w' [= _ <-]. exists []. by rewrite app_nil_r.
Qed.

Lemma issues_bind {A B} P (m : M A) (k : A → M B) :
  issues P m → (∀ a, issues P (k a)) → issues P (bindM m k).
Proof.
  intros Hm Hk w r w'. unfold bindM.
  destruct (m w) as [[a|e] w1] eqn:E; apply Hm in E as (t1 & E & F1).
  - intros (t2 & H & F2)%Hk. exists (t1 ++ t2).
    split; [by rewrite H, E, <- List.app_assoc|]. by apply Forall_app.
  - intros [= _ <-]. eauto.
Qed.

Lemma issues_bind_pure {A B} P (x : result A) (k : A → M B) :
  (∀ a, x = Ok a → issues P (k a)) → issues P (bindM (pure x) k).
Proof.
  intros Hk. destruct x as [a|e].
  - intros w r w'. rewrite bind_pure_ok. by apply Hk.
  - intros w r w'. rewrite bind_pure_throw. intros [= _ <-]. exists [].
    by rewrite app_nil_r.
Qed.

Lemma issues_try_catch {A} P (m : M A) (h : exn → M A) :
  issues P m → (∀ e, issues P (h e)) → issues P (try_catch m h).
Proof.
  intros Hm Hh w r w'. unfold try_catch.
  destruct (m w) as [[a|e] w1] eqn:E; apply Hm in E as (t1 & E & F1).
  - intros [= _ <-]. eauto.
  - intros (t2 & H & F2)%Hh. exists (t1 ++ t2).
    split; [by rewrite H, E, <- List.app_assoc|]. by apply Forall_app.
Qed.

Lemma issues_for_of {A B} P (xs : list A) (body : A → B → M B) acc :
  (∀ x b, issues P (body x b)) → issues P (for_of xs body acc).
Proof.
  intros Hbody. revert acc.
  induction xs as [|x xs IH]; intros acc; cbn [for_of].
  - apply issues_ret.
  - apply issues_bind; [apply Hbody|]. intros b. apply (IH b).
Qed.

Lemma issues_axios P who c : P (who, c) → issues P (axios who c).
Proof.
  intros HP w r w'. unfold axios. destruct (respond _ _) as [r0 rm].
  intros [= _ <-]. eexists. split; [done|]. by apply Forall_singleton.
Qed.

(** Proves that all requests of a method built from these steps satisfy the
    predicate; what is left are the requests themselves. *)
Ltac issues_steps :=
  repeat first
    [ assumption
    | match goal with H : context [issues] |- _ => solve [apply H] end
    | apply issues_ret | apply issues_throw | apply issues_pure
    | apply issues_get_zoho | apply issues_get_trello
    | apply issues_set_accessToken
    | apply issues_bind_pure; intros ? ?
    | apply issues_bind; [|intros ?]
    | apply issues_try_catch; [|intros ?]
    | apply issues_for_of; intros ? ?
    | apply issues_axios
    | match goal with
      | |- issues _ (if ?b then _ else _) => destruct b
      | |- issues _ (let _ := _ in _) => cbv zeta
      end ].

Section sync_more.
Import integrationService.

Lemma has_board_id_reads deal b k :
  has_board_id deal = Ok b → ∃ v, getprop deal k = Ok v.
Proof.
  intros H. apply getprop_total; intros ->; by vm_compute in H.
Qed.

(** The body of the loop, in the three cases of the test at its head, on any
    value. *)
Lemma sync_deal_throws deal results w e :
  has_board_id deal = Throw e → sync_deal deal results w = (Throw e, w).
Proof. intros H. unfold sync_deal, loop_body. by rewrite H. Qed.

Lemma sync_deal_skips deal results w :
  has_board_id deal = Ok true →
  ∃ id name,
    getprop deal "id" = Ok id ∧ getprop deal "Deal_Name" = Ok name
    ∧ sync_deal deal results w
      = (if converts id && converts name
         then Ok results else Throw cannot_convert, w).
Proof.
  intros H.
  destruct (has_board_id_reads deal _ "id" H) as [i Hi].
  destruct (has_board_id_reads deal _ "Deal_Name" H) as [n Hn].
  exists i, n. split_and!; [done..|].
  unfold sync_deal, loop_body. rewrite H, Hi, Hn. msimpl.
  destruct (converts i) eqn:Ci; msimpl; [|done].
  by destruct (converts n) eqn:Cn; msimpl.
Qed.

(** [processDeal] returns only on a record whose id converts to a string. *)
Lemma processDeal_returned deal w pd w' id :
  processDeal deal w = (Ok pd, w') →
  getprop deal "id" = Ok id → converts id = true.
Proof.
  intros H Hi. unfold processDeal in H.
  apply try_catch_inv_ok in H as [H|(e & w1 & _ & H)].
  - apply bindM_inv_ok in H as (n & w1 & _ & H).
    apply bindM_inv_ok in H as (? & w2 & _ & H).
    rewrite Hi in H. revert H. msimpl.
    destruct (converts id) eqn:Ci; [done|]. by msimpl.
  - rewrite Hi in H. revert H. msimpl.
    by destruct (converts id) eqn:Ci; msimpl.
Qed.

Lemma sync_deal_processes deal results w :
  has_board_id deal = Ok false →
  ∃ id name,
    getprop deal "id" = Ok id ∧ getprop deal "Deal_Name" = Ok name
    ∧ sync_deal deal results w
      = match processDeal deal w with
        | (Ok _, w') =>
            (Ok {| processed := processed results;
                   created := S (created results);
                   errors := errors results;
                   details := details results ++ [success_detail id name] |},
             w')
        | (Throw e, w') =>
            if converts id then
              (Ok {| processed := processed results;
                     created := created results;
                     errors := S (errors results);
                     details :=
                       details results ++ [error_detail id name e] |},
               w')
            else (Throw cannot_convert, w')
        end.
Proof.
  intros H.
  destruct (has_board_id_reads deal _ "id" H) as [i Hi].
  destruct (has_board_id_reads deal _ "Deal_Name" H) as [n Hn].
  exists i, n. split_and!; [done..|].
  unfold sync_deal, loop_body. rewrite H, bind_pure_ok. cbn match.
  unfold try_catch, bindM at 1.
  destruct (processDeal deal w) as [[r|e] w']; rewrite Hi, Hn; msimpl;
    [done|].
  by destruct (converts i) eqn:Ci; msimpl.
Qed.

(** The body of the loop returns exactly on the records whose log lines can
    be written. *)
Lemma sync_deal_returns deal results w :
  loggable deal = true → ∃ r w', sync_deal deal results w = (Ok r, w').
Proof.
  unfold loggable. intros H.
  destruct (has_board_id deal) as [[]|e] eqn:Hb; [| |done].
  - destruct (sync_deal_skips deal results w Hb) as (i & n & Hi & Hn & ->).
    rewrite Hi, Hn in H. rewrite H. by eexists _, _.
  - destruct (sync_deal_processes deal results w Hb)
      as (i & n & Hi & Hn & ->).
    rewrite Hi in H. rewrite H.
    destruct (processDeal deal w) as [[pd|e] w2]; by eexists _, _.
Qed.

Lemma sync_deal_returned deal results w r w' :
  sync_deal deal results w = (Ok r, w') → loggable deal = true.
Proof.
  unfold loggable. intros H.
  destruct (has_board_id deal) as [[]|e] eqn:Hb.
  - destruct (sync_deal_skips deal results w Hb) as (i & n & Hi & Hn & E).
    rewrite E in H. rewrite Hi, Hn. by destruct (_ && _).
  - destruct (sync_deal_processes deal results w Hb)
      as (i & n & Hi & Hn & E).
    rewrite E in H. rewrite Hi.
    destruct (processDeal deal w) as [[pd|e] w2] eqn:Ep.
    + by eapply processDeal_returned.
    + by destruct (converts i).
  - by rewrite (sync_deal_throws _ _ _ _ Hb) in H.
Qed.

Lemma success_is_no_error : u "success" ≠ u "error".
Proof. by vm_compute. Qed.

Lemma with_status_success_cons i n ds :
  with_status "success" (success_detail i n :: ds)
  = success_detail i n :: with_status "success" ds
  ∧ with_status "error" (success_detail i n :: ds) = with_status "error" ds.
Proof.
  unfold with_status. split.
  - by rewrite filter_cons_True.
  - rewrite filter_cons_False; [done|]. apply success_is_no_error.
Qed.

Lemma with_status_error_cons i n e ds :
  with_status "error" (error_detail i n e :: ds)
  = error_detail i n e :: with_status "error" ds
  ∧ with_status "success" (error_detail i n e :: ds)
    = with_status "success" ds.
Proof.
  unfold with_status. split.
  - by rewrite filter_cons_True.
  - rewrite filter_cons_False; [done|]. intros H. by apply success_is_no_error.
Qed.

(** The loop of [syncDealsToTrello]: what it returns, when it returns. *)
Lemma sync_loop ds : ∀ results w r w',
  for_of ds sync_deal results w = (Ok r, w') →
  processed r = processed results
  ∧ ∃ new,
      details r = details results ++ new
      ∧ Forall2 describes new (filter unlinked ds)
      ∧ created r = created results + length (with_status "success" new)
      ∧ errors r = errors results + length (with_status "error" new)
      ∧ length (with_status "success" new)
        + length (with_status "error" new) = length new.
Proof.
  induction ds as [|d ds IH]; intros results w r w' H; cbn [for_of] in H.
  - apply ret_inv_ok in H as [-> ->]. split; [done|]. exists [].
    rewrite app_nil_r. split_and!; try done; cbn; lia.
  - apply bindM_inv_ok in H as (r1 & w1 & H1 & H).
    apply IH in H as (Hp & new & Hd & Hf & Hc & He & Hl). clear IH.
    destruct (has_board_id d) as [[]|e] eqn:Hb.
    + destruct (sync_deal_skips d results w Hb) as (i & n & _ & _ & E).
      rewrite E in H1. clear E.
      destruct (_ && _); [|done]. injection H1 as <- <-.
      split; [done|]. exists new. split_and!; try done.
      rewrite filter_cons_False; [done|]. unfold unlinked. rewrite Hb. intros [].
    + destruct (sync_deal_processes d results w Hb)
        as (i & n & Hi & Hn & E).
      rewrite E in H1. clear E.
      destruct (processDeal d w) as [[pd|e] w2];
        [|destruct (converts i); [|done]]; injection H1 as <- <-;
        cbn [processed created errors details] in *.
      * split; [done|]. exists (success_detail i n :: new).
        destruct (with_status_success_cons i n new) as [-> ->].
        split_and!.
        -- by rewrite Hd, <- List.app_assoc.
        -- rewrite filter_cons_True by (unfold unlinked; rewrite Hb; exact I).
           by constructor.
        -- cbn [length]. lia.
        -- lia.
        -- cbn [length]. lia.
      * split; [done|]. exists (error_detail i n e :: new).
        destruct (with_status_error_cons i n e new) as [-> ->].
        split_and!.
        -- by rewrite Hd, <- List.app_assoc.
        -- rewrite filter_cons_True by (unfold unlinked; rewrite Hb; exact I).
           by constructor.
        -- lia.
        -- cbn [length]. lia.
        -- cbn [length]. lia.
    + by rewrite (sync_deal_throws _ _ _ _ Hb) in H1.
Qed.

(** The loop returns exactly when the log lines of every record can be
    written. *)
Lemma sync_loop_returns ds : ∀ results w,
  Forall (λ d, loggable d = true) ds →
  ∃ r w', for_of ds sync_deal results w = (Ok r, w').
Proof.
  induction ds as [|d ds IH]; intros results w H; cbn [for_of].
  - by eexists _, _.
  - apply Forall_cons in H as [Hd H].
    destruct (sync_deal_returns d results w Hd) as (r1 & w1 & E).
    erewrite bindM_ok by exact E. by apply IH.
Qed.

Lemma sync_loop_returned ds : ∀ results w r w',
  for_of ds sync_deal results w = (Ok r, w') →
  Forall (λ d, loggable d = true) ds.
Proof.
  induction ds as [|d ds IH]; intros results w r w' H; cbn [for_of] in H.
  - by apply Forall_nil.
  - apply bindM_inv_ok in H as (r1 & w1 & H1 & H).
    apply Forall_cons. split; [by eapply sync_deal_returned|by eapply IH].
Qed.

Lemma has_board_id_not_text m :
  text_or_falsy (field m "Project_Board_ID_c") = false →
  has_board_id (JObj m)
  = Throw (not_a_function "deal.Project_Board_ID_c.trim").
Proof.
  intros H. unfold has_board_id. rewrite !getprop_obj. cbn [bindR].
  destruct (field m "Project_Board_ID_c") as [| |b|z|s|l|o];
    cbn in H |- *; try done.
  - by destruct b.
  - by destruct (z =? 0)%Z.
Qed.

(** X16. The counters of a run agree with its details: [created] is the
    number of details with the status success, [errors] the number with the
    status error, every detail has one of the two, and there are at most
    [processed] details (the skipped records make the difference). *)
Theorem sync_counters_agree_with_details (w : World) (r : SyncResult)
    (w' : World) :
  syncDealsToTrello w = (Ok r, w') →
  tallied r ∧ length (details r) ≤ processed r.
Proof.
  rewrite syncDealsToTrello_eq.
  destruct (zohoService.getEligibleDeals w) as [[ds|e] w0]; [|done].
  destruct ds as [|d ds]; [by intros [= <- <-]|].
  intros (Hp & new & Hd & Hf & Hc & He & Hl)%sync_loop.
  cbn [processed created errors details app] in *. subst new.
  unfold tallied. split; [lia|].
  rewrite Hp, (Forall2_length _ _ _ Hf). apply length_filter.
Qed.

Lemma sync_counters_agree_with_details_witness :
  let w := scenario.world
             (inl (obj [("data", JArr [scenario.deal1; scenario.linked;
                                       scenario.deal2])])
              :: inr (scenario.rejected 500) :: []) in
  let r := {| processed := 3; created := 0; errors := 2;
              details :=
                [ error_detail (JStr (u "D1")) (JStr (u "Acme"))
                    (Error (u "Deal does not meet all criteria"));
                  error_detail (JStr (u "D2")) (JStr (u "Globex"))
                    (AxiosError (scenario.rejected 500)) ] |} in
  (syncDealsToTrello w).1 = Ok r
  ∧ tallied r ∧ length (details r) ≤ processed r.
Proof.
  intros w r.
  assert ((syncDealsToTrello w).1 = Ok r) as H by by vm_compute.
  split; [exact H|].
  exact (sync_counters_agree_with_details w r (syncDealsToTrello w).2
           (returned _ _ H)).
Defined.

(** X17. The details of a run follow the fetch: [processed] is the number of
    fetched records, and there is exactly one detail for each fetched record
    that is not skipped, in the order of the fetch, with the id and the name
    of that record. *)
Theorem sync_details_follow_the_fetch (w w0 : World) (ds : list jsval)
    (r : SyncResult) (w' : World) :
  zohoService.getEligibleDeals w = (Ok ds, w0) →
  syncDealsToTrello w = (Ok r, w') →
  processed r = length ds
  ∧ Forall2 describes (details r) (filter unlinked ds).
Proof.
  intros Hfetch. rewrite syncDealsToTrello_eq, Hfetch.
  destruct ds as [|d ds]; [intros [= <- <-]; by split; [|constructor]|].
  intros (Hp & new & Hd & Hf & _)%sync_loop.
  cbn [processed details app] in *. by subst new.
Qed.

Lemma sync_details_follow_the_fetch_witness :
  let ds := [scenario.deal1; scenario.linked; scenario.deal2] in
  let w := scenario.world
             (inl (obj [("data", JArr ds)])
              :: inr (scenario.rejected 500) :: []) in
  ∃ r, (syncDealsToTrello w).1 = Ok r
       ∧ processed r = 3
       ∧ Forall2 describes (details r) [scenario.deal1; scenario.deal2].
Proof.
  intros ds w.
  pose (r := scenario.value
               {| processed := 0; created := 0; errors := 0; details := [] |}
               (syncDealsToTrello w).1).
  assert ((syncDealsToTrello w).1 = Ok r) as H by by vm_compute.
  assert ((zohoService.getEligibleDeals w).1 = Ok ds) as Hf by by vm_compute.
  exists r. split; [exact H|].
  exact (sync_details_follow_the_fetch w (zohoService.getEligibleDeals w).2
           ds r (syncDealsToTrello w).2 (returned _ _ Hf) (returned _ _ H)).
Defined.

(** X18. No failure of the board service or of the CRM while a record is
    processed aborts the run: once the fetch has returned,
    [syncDealsToTrello] returns exactly when every fetched record is
    [loggable], that is, the test at the head of the loop can be evaluated on
    it and the values its log lines print convert to strings (the id, and for
    a skipped record also the name), whatever the remote systems answer
    afterwards. *)
Theorem sync_returns_iff_every_test_evaluates (w w0 : World)
    (ds : list jsval) :
  zohoService.getEligibleDeals w = (Ok ds, w0) →
  (∃ r w', syncDealsToTrello w = (Ok r, w'))
  ↔ Forall (λ d, loggable d = true) ds.
Proof.
  intros Hfetch. rewrite syncDealsToTrello_eq, Hfetch.
  destruct ds as [|d ds].
  - split; [intros _; by apply Forall_nil|]. intros _. by eexists _, _.
  - split.
    + intros (r & w' & H). by eapply sync_loop_returned.
    + apply sync_loop_returns.
Qed.

Lemma sync_returns_iff_every_test_evaluates_witness :
  let ds := [scenario.deal2; scenario.deal3] in
  let w := scenario.world [inl (obj [("data", JArr ds)])] in
  (∃ r w', syncDealsToTrello w = (Ok r, w'))
  ↔ Forall (λ d, loggable d = true) ds.
Proof.
  intros ds w.
  assert ((zohoService.getEligibleDeals w).1 = Ok ds) as Hf by by vm_compute.
  exact (sync_returns_iff_every_test_evaluates w
           (zohoService.getEligibleDeals w).2 ds (returned _ _ Hf)).
Defined.

(** X19. A fetched record whose board reference is a truthy value that is
    not a string aborts the run with a TypeError, when the records before it
    are [loggable] (so that none of them has ended the run): the records
    before it have been processed, with all their requests, those after it
    are not looked at, and no result is returned. *)
Theorem sync_aborts_on_a_reference_that_is_no_text (w w0 : World)
    (before after : list jsval) (m : gmap jstring jsval) :
  zohoService.getEligibleDeals w = (Ok (before ++ JObj m :: after), w0) →
  Forall (λ d, loggable d = true) before →
  text_or_falsy (field m "Project_Board_ID_c") = false →
  ∃ r1 w1,
    for_of before sync_deal
      {| processed := length (before ++ JObj m :: after); created := 0;
         errors := 0; details := [] |} w0 = (Ok r1, w1)
    ∧ syncDealsToTrello w
      = (Throw (not_a_function "deal.Project_Board_ID_c.trim"), w1).
Proof.
  intros Hfetch Hb Hm. rewrite syncDealsToTrello_eq, Hfetch.
  destruct (sync_loop_returns before
              {| processed := length (before ++ JObj m :: after);
                 created := 0; errors := 0; details := [] |} w0 Hb)
    as (r1 & w1 & H1).
  exists r1, w1. split; [done|].
  assert (for_of (before ++ JObj m :: after) sync_deal
            {| processed := length (before ++ JObj m :: after);
               created := 0; errors := 0; details := [] |} w0
          = (Throw (not_a_function "deal.Project_Board_ID_c.trim"), w1)) as E.
  { rewrite for_of_app. erewrite bindM_ok by exact H1. cbn [for_of].
    erewrite bindM_throw; [done|].
    by apply sync_deal_throws, has_board_id_not_text. }
  by destruct before.
Qed.

Lemma sync_aborts_on_a_reference_that_is_no_text_witness :
  let odd := obj [("id", JStr (u "D4")); ("Project_Board_ID_c", JNum 7)] in
  let w := scenario.world
             [inl (obj [("data", JArr [scenario.deal1; odd;
                                       scenario.deal2])])] in
  (syncDealsToTrello w).1
  = Throw (not_a_function "deal.Project_Board_ID_c.trim").
Proof.
  intros odd w.
  assert ((zohoService.getEligibleDeals w).1
          = Ok ([scenario.deal1] ++ JObj (scenario.props odd)
                  :: [scenario.deal2])) as Hf by by vm_compute.
  destruct (sync_aborts_on_a_reference_that_is_no_text w
              (zohoService.getEligibleDeals w).2 [scenario.deal1]
              [scenario.deal2] (scenario.props odd) (returned _ _ Hf))
    as (r1 & w1 & _ & ->); [|by vm_compute|done].
  apply Forall_singleton. by vm_compute.
Defined.

(** X20. A record that is not skipped and fails validation costs no request:
    the body of the loop records an error detail with the message [Deal does
    not meet all criteria], increments [errors] and leaves the world as it
    is. *)
Theorem invalid_record_issues_no_request (m : gmap jstring jsval)
    (results : SyncResult) (w : World) :
  has_board_id (JObj m) = Ok false →
  validateDeal (JObj m) = Ok false →
  sync_deal (JObj m) results w
  = (Ok {| processed := processed results;
           created := created results;
           errors := S (errors results);
           details :=
             details results
             ++ [ {| dealId := field m "id"; dealName := field m "Deal_Name";
                     status := u "error";
                     detail_message := u "Deal does not meet all criteria" |} ]
        |}, w).
Proof.
  intros Hb Hv.
  destruct (validateDeal_returned m false Hv) as (_ & Cn & Ci).
  by rewrite sync_deal_eq, processDeal_eq, Hv, Cn, Ci.
Qed.

Lemma invalid_record_issues_no_request_witness :
  let results := {| processed := 1; created := 0; errors := 0;
                    details := [] |} in
  let w := scenario.world [] in
  sync_deal scenario.deal1 results w
  = (Ok {| processed := 1; created := 0; errors := 1;
           details :=
             [ {| dealId := JStr (u "D1"); dealName := JStr (u "Acme");
                  status := u "error";
                  detail_message := u "Deal does not meet all criteria" |} ]
        |}, w).
Proof.
  intros results w.
  apply (invalid_record_issues_no_request (scenario.props scenario.deal1)
           results w); by vm_compute.
Defined.

Lemma trello_method this endpoint verb payload :
  method (trelloService.request_config this endpoint verb payload) = verb.
Proof.
  unfold trelloService.request_config.
  destruct (truthy payload); [|done]. by case_bool_decide.
Qed.

Lemma issues_trello_makeRequest endpoint payload :
  issues sync_request (trelloService.makeRequest endpoint (u "POST") payload).
Proof.
  unfold trelloService.makeRequest. issues_steps.
  unfold sync_request. cbn [fst snd]. apply trello_method.
Qed.

Lemma issues_refreshAccessToken :
  issues sync_request zohoService.refreshAccessToken.
Proof.
  unfold zohoService.refreshAccessToken. issues_steps. reflexivity.
Qed.

Lemma zoho_method this endpoint verb payload c :
  zohoService.request_config this endpoint verb payload = Ok c →
  method c = verb.
Proof.
  unfold zohoService.request_config.
  destruct (tpl (accessToken this)); [|done]. by intros [= <-].
Qed.

Lemma issues_zoho_makeRequest endpoint verb payload :
  verb = u "GET" ∨ verb = u "PUT" →
  issues sync_request (zohoService.makeRequest endpoint verb payload).
Proof.
  intros Hv. pose proof issues_refreshAccessToken.
  unfold zohoService.makeRequest. issues_steps;
    unfold sync_request; cbn [fst snd];
    by match goal with
       | E : zohoService.request_config _ _ _ _ = Ok _ |- _ =>
           rewrite (zoho_method _ _ _ _ _ E)
       end.
Qed.

Lemma issues_createProjectBoard n d :
  issues sync_request (trelloService.createProjectBoard n d).
Proof.
  pose proof issues_trello_makeRequest.
  unfold trelloService.createProjectBoard, trelloService.createBoard,
    trelloService.createList, trelloService.createCard.
  issues_steps.
Qed.

Lemma issues_syncDealsToTrello : issues sync_request syncDealsToTrello.
Proof.
  pose proof issues_createProjectBoard.
  pose proof (λ e d, issues_zoho_makeRequest e (u "GET") d (or_introl eq_refl)).
  pose proof (λ e d, issues_zoho_makeRequest e (u "PUT") d (or_intror eq_refl)).
  unfold syncDealsToTrello, sync_deal, loop_body, processDeal,
    zohoService.getEligibleDeals, zohoService.updateDealWithBoardId.
  issues_steps.
Qed.

(** X21. Whatever the remote systems answer, the requests of a run are, in
    the order issued and added to the trace: searches ([GET]) and updates
    ([PUT]) of the CRM, token posts to its OAuth server, and creations
    ([POST]) on the board service.  In particular no run deletes or changes
    a board it has created, also when the write-back for it fails. *)
Theorem sync_only_searches_updates_and_creates (w : World) :
  ∃ t, trace (syncDealsToTrello w).2 = trace w ++ t
       ∧ Forall sync_request t.
Proof.
  destruct (syncDealsToTrello w) as [r w'] eqn:E.
  exact (issues_syncDealsToTrello w r w' E).
Qed.

End sync_more.


(** * Properties of the statistics, the service checks and the routes *)

Section service_facts.
Import integrationService.

Lemma filterR_inv {A} (p : A → result bool) (l : list A) : ∀ r,
  filterR p l = Ok r →
  sublist r l
  ∧ Forall (λ x, p x = Ok true) r
  ∧ Forall (λ x, x ∈ r ∨ p x = Ok false) l.
Proof.
  induction l as [|x l IH]; intros r; cbn [filterR].
  - intros [= <-]. split_and!; by constructor.
  - destruct (p x) as [b|e] eqn:Hp; cbn [bindR]; [|done].
    destruct (filterR p l) as [r'|e]; cbn [bindR]; [|done].
    destruct (IH r' eq_refl) as (Hs & Hk & Hd). intros [= <-].
    destruct b.
    + split_and!.
      * by constructor.
      * by constructor.
      * constructor; [left; by constructor|].
        eapply Forall_impl; [exact Hd|]. intros y [Hy|Hy]; [left|by right].
        by constructor.
    + split_and!.
      * by constructor.
      * done.
      * constructor; [by right|done].
Qed.

(** X22. [getEligibleDeals] returns only when the response to its search has
    a [data] that is falsy, and then it returns no record, or that is an
    array, and then it returns, in their order, the records of the array
    whose [Project_Board_ID__c] is falsy or the empty string; every record
    it leaves out has another value there. *)
Theorem getEligibleDeals_selects (w w' : World) (ds : list jsval) :
  zohoService.getEligibleDeals w = (Ok ds, w') →
  ∃ response d,
    zohoService.makeRequest zohoService.search_endpoint (u "GET") JNull w
    = (Ok response, w')
    ∧ getprop response "data" = Ok d
    ∧ match d with
      | JArr l =>
          sublist ds l
          ∧ Forall (λ x, zohoService.board_id_empty x = Ok true) ds
          ∧ Forall (λ x, x ∈ ds ∨ zohoService.board_id_empty x = Ok false) l
      | _ => truthy d = false ∧ ds = []
      end.
Proof.
  rewrite getEligibleDeals_eq.
  destruct (zohoService.makeRequest _ _ _ w) as [[response|e] w1]; [|done].
  cbn [bindR]. intros [= H <-]. exists response. revert H.
  unfold eligible_in.
  destruct (getprop response "data") as [d|e]; cbn [bindR]; [|done].
  intros H. exists d. split_and!; [done..|].
  destruct d as [| |b|z|s|l|o]; cbn in H |- *;
    try (by injection H as <-); try done.
  - destruct b; cbn in H; [done|]. by injection H as <-.
  - destruct (z =? 0)%Z; cbn in H; [|done]. by injection H as <-.
  - case_bool_decide; cbn in H; [|done]. by injection H as <-.
  - by apply filterR_inv.
Qed.

Lemma getEligibleDeals_selects_witness :
  let unset := obj [("id", JStr (u "D5")); ("Project_Board_ID__c", JNull)] in
  let set := obj [("id", JStr (u "D6"));
                  ("Project_Board_ID__c", JStr (u "B6"))] in
  let w := scenario.world [inl (obj [("data", JArr [set; unset])])] in
  (zohoService.getEligibleDeals w).1 = Ok [unset]
  ∧ ∃ response d,
      zohoService.makeRequest zohoService.search_endpoint (u "GET") JNull w
      = (Ok response, (zohoService.getEligibleDeals w).2)
      ∧ getprop response "data" = Ok d
      ∧ match d with
        | JArr l =>
            sublist [unset] l
            ∧ Forall (λ x, zohoService.board_id_empty x = Ok true) [unset]
            ∧ Forall (λ x, x ∈ [unset]
                           ∨ zohoService.board_id_empty x = Ok false) l
        | _ => truthy d = false ∧ [unset] = []
        end.
Proof.
  intros unset set w.
  assert ((zohoService.getEligibleDeals w).1 = Ok [unset]) as H
    by by vm_compute.
  split; [exact H|].
  exact (getEligibleDeals_selects w (zohoService.getEligibleDeals w).2
           [unset] (returned _ _ H)).
Defined.

(** X23. The statistics [getSyncStats] returns count the fetch only: both
    [eligible] and [pending] are the number of fetched records, and
    [processed] is 0 whatever was synchronised before; the only requests are
    those of the fetch, and a failure of the fetch is rethrown. *)
Theorem getSyncStats_counts_the_fetch (now : jstring) (w : World) :
  getSyncStats now w
  = match zohoService.getEligibleDeals w with
    | (Ok ds, w') =>
        (Ok {| SyncStats.eligible := length ds; SyncStats.processed := 0;
               SyncStats.pending := length ds; SyncStats.lastSync := now |},
         w')
    | (Throw e, w') => (Throw e, w')
    end.
Proof.
  unfold getSyncStats. rewrite try_rethrow. unfold bindM at 1.
  by destruct (zohoService.getEligibleDeals w) as [[ds|e] w'].
Qed.

Lemma zoho_checkConnection_eq w :
  zohoService.checkConnection w
  = match zohoService.makeRequest (u "/org") (u "GET") JNull w with
    | (Ok _, w') =>
        (Ok {| Connection.status := u "connected";
               Connection.message := u "Zoho CRM connection successful" |},
         w')
    | (Throw e, w') =>
        (Ok {| Connection.status := u "error";
               Connection.message := message e |}, w')
    end.
Proof.
  unfold zohoService.checkConnection, try_catch, bindM, ret.
  by destruct (zohoService.makeRequest _ _ _ w) as [[b|e] w'].
Qed.

Lemma trello_checkConnection_eq w :
  let c0 := trelloService.request_config (trello w) (u "/members/me")
              (u "GET") JNull in
  trelloService.checkConnection w
  = match respond (remote w) c0 with
    | (inl _, rm) =>
        (Ok {| Connection.status := u "connected";
               Connection.message := u "Trello connection successful" |},
         issued w TrelloApi [c0] rm)
    | (inr e, rm) =>
        (Ok {| Connection.status := u "error";
               Connection.message := ax_message e |},
         issued w TrelloApi [c0] rm)
    end.
Proof.
  intros c0. unfold trelloService.checkConnection, try_catch, bindM.
  destruct (respond (remote w) c0) as [[b|e] rm] eqn:H.
  - by rewrite (makeRequest_ok _ _ _ _ _ _ H).
  - by rewrite (makeRequest_throw _ _ _ _ _ _ H).
Qed.

(** The two checks in sequence, as [validateServices] and the health route
    run them. *)
Lemma both_checks w :
  ∃ zc tc w1 w',
    zohoService.checkConnection w = (Ok zc, w1)
    ∧ trelloService.checkConnection w1 = (Ok tc, w')
    ∧ ∃ t, trace w' = trace w ++ t
             ++ [(TrelloApi,
                  trelloService.request_config (trello w) (u "/members/me")
                    (u "GET") JNull)]
           ∧ (t = [] ↔ converts (accessToken (zoho w)) = false)
           ∧ Forall (λ x, x.1 ≠ TrelloApi) t.
Proof.
  rewrite zoho_checkConnection_eq.
  destruct (zohoService.makeRequest (u "/org") (u "GET") JNull w)
    as [r w1] eqn:H1.
  apply makeRequest_trace in H1 as (Ht & t & Htr & Hne & Hall).
  assert (∃ tc w', trelloService.checkConnection w1 = (Ok tc, w')
            ∧ trace w' = trace w1
                ++ [(TrelloApi,
                     trelloService.request_config (trello w1)
                       (u "/members/me") (u "GET") JNull)])
    as (tc & w' & H2 & Htr2).
  { rewrite trello_checkConnection_eq.
    destruct (respond _ _) as [[b|e] rm]; by eexists _, _. }
  assert (Forall (λ x : client * config, x.1 ≠ TrelloApi) t) as Hall'.
  { eapply Forall_impl; [exact Hall|]. intros x [[-> _]|[-> _]]; done. }
  destruct r as [b|e]; eexists _, tc, w1, w';
    (split_and!; [reflexivity|exact H2|]);
    exists t; rewrite Htr2, Htr, Ht, <- List.app_assoc; by split_and!.
Qed.

(** X24. [validateServices] never throws and always checks both services,
    the board service last, also when the check of the CRM has failed;
    [overall] holds exactly when both checks report "connected".  The check
    of the CRM issues at least one request, except when the stored access
    token does not convert to a string: then it fails before any request. *)
Theorem validateServices_checks_both (w : World) :
  ∃ c w',
    validateServices w = (Ok c, w')
    ∧ (ServicesCheck.overall c = true
       ↔ Connection.status (ServicesCheck.zoho c) = u "connected"
         ∧ Connection.status (ServicesCheck.trello c) = u "connected")
    ∧ ∃ t, trace w' = trace w ++ t
             ++ [(TrelloApi,
                  trelloService.request_config (trello w) (u "/members/me")
                    (u "GET") JNull)]
           ∧ (t = [] ↔ converts (accessToken (zoho w)) = false)
           ∧ Forall (λ x, x.1 ≠ TrelloApi) t.
Proof.
  destruct (both_checks w) as (zc & tc & w1 & w' & H1 & H2 & Ht).
  eexists _, w'. unfold validateServices. rewrite try_rethrow.
  erewrite bindM_ok by exact H1. erewrite bindM_ok by exact H2.
  split_and!; [reflexivity| |exact Ht].
  cbn [ServicesCheck.overall ServicesCheck.zoho ServicesCheck.trello].
  rewrite andb_true_iff, !bool_decide_eq_true. done.
Qed.

(** X25. The health route always answers 200 with the status [ok], also when
    both services are unreachable: no check throws, so the branch that
    answers 500 is never taken.  Both services are checked, the board service
    last; the check of the CRM issues at least one request, except when the
    stored access token does not convert to a string. *)
Theorem health_always_answers_ok (now : jstring) (w : World) :
  ∃ r w',
    routes.health now w = (Ok r, w')
    ∧ routes.status_code r = 200%Z
    ∧ getprop (routes.json r) "status" = Ok (JStr (u "ok"))
    ∧ getprop (routes.json r) "timestamp" = Ok (JStr now)
    ∧ ∃ t, trace w' = trace w ++ t
             ++ [(TrelloApi,
                  trelloService.request_config (trello w) (u "/members/me")
                    (u "GET") JNull)]
           ∧ (t = [] ↔ converts (accessToken (zoho w)) = false).
Proof.
  destruct (both_checks w) as (zc & tc & w1 & w' & H1 & H2 & t & Ht & Hne & _).
  eexists _, w'. unfold routes.health, try_catch.
  erewrite bindM_ok by exact H1. erewrite bindM_ok by exact H2.
  unfold ret. split_and!; [reflexivity..|]. by exists t.
Qed.

(** X26. The callback route never throws.  Without a code, or with an empty
    one, it answers 400 and issues no request; otherwise it issues the one
    request of the exchange and answers 200 with both tokens of the answer
    in the body, or 500 with a fixed message when the exchange fails. *)
Theorem callback_never_throws (query : gmap jstring jsval) (w : World) :
  ∃ r w',
    routes.callback query w = (Ok r, w')
    ∧ (routes.status_code r = 400%Z ↔ truthy (field query "code") = false)
    ∧ (routes.status_code r = 400%Z → w' = w)
    ∧ (routes.status_code r ≠ 400%Z →
       trace w' = trace w
         ++ [(ZohoAccounts,
              zohoService.code_request (zoho w) (field query "code"))]
       ∧ (routes.status_code r = 200%Z ∧
          (∃ a b, getprop (routes.json r) "access_token" = Ok a
                  ∧ getprop (routes.json r) "refresh_token" = Ok b
                  ∧ accessToken (zoho w') = a ∧ refreshToken (zoho w') = b)
          ∨ routes.status_code r = 500%Z
            ∧ routes.json r
              = obj [("error",
                      JStr (u "Failed to exchange authorization code"))]
            ∧ zoho w' = zoho w)).
Proof.
  unfold routes.callback.
  destruct (truthy (field query "code")) eqn:Hc; cbn [negb].
  - destruct (respond (remote w)
                (zohoService.code_request (zoho w) (field query "code")))
      as [r rm] eqn:H.
    unfold try_catch, bindM. rewrite (exchangeCodeForTokens_eq _ _ _ _ H).
    destruct r as [d|e].
    + destruct (getprop d "access_token") as [a|] eqn:Ha;
        [destruct (getprop d "refresh_token") as [b|] eqn:Hb|].
      * eexists _, _. split; [reflexivity|].
        cbn [routes.status_code routes.json]. split_and!; try done.
        intros _. split; [done|]. left. split; [done|]. by exists a, b.
      * eexists _, _. split; [reflexivity|].
        cbn [routes.status_code routes.json]. split_and!; try done.
        intros _. split; [done|]. by right.
      * eexists _, _. split; [reflexivity|].
        cbn [routes.status_code routes.json]. split_and!; try done.
        intros _. split; [done|]. by right.
    + eexists _, _. split; [reflexivity|].
      cbn [routes.status_code routes.json]. split_and!; try done.
      intros _. split; [done|]. by right.
  - eexists _, _. split; [reflexivity|].
    cbn [routes.status_code routes.json]. by split_and!.
Qed.

End service_facts.

